(** * Arcade-Runners: the game loop of [arcadegame.py], embedded and verified

    The Python program is a pygame arcade game.  This development embeds
    its update logic as pure functions over explicit state records and
    proves properties of the session state machine, the player, and the
    projectile manager.

    Conventions of the embedding:
    - Python [int] is [Z]; [//] on integers is [Z.div] (floor), C integer
      division inside pygame's [Rect] is [Z.quot] (truncation).
    - Python [float] is modelled by exact rationals [Q]; [int(f)] is
      truncation toward zero ([trunc]); a float stored in an integer
      attribute of a [Rect] is rounded to the nearest integer, halves away
      from zero ([round_half_away]).
    - A function that can raise returns an [option], [None] being the
      raise.  On the update path these are the [ValueError]s of
      [random.randint] on an empty range, which a small window causes;
      nothing in [Game.run] catches them, so they end the loop.
    - Every read of the outside world (pressed keys, [pygame.time.get_ticks],
      the [random] module, [math.sin]) is an explicit argument, gathered per
      tick in the record [Env].
    - Calls into the audio collaborator and into [Cutscene.start] are
      recorded, in program order, in the [trace] field of the game. *)

From Stdlib Require Import ZArith QArith Qround List Bool Lia.
Import ListNotations.

Local Open Scope Z_scope.

(** ** Enumerations *)

Inductive GameState : Type :=
| OPENING_CRAWL | MENU | PLAYING | CUTSCENE | GAME_OVER.

Inductive PowerUpType : Type :=
| SHIELD | RAPID_FIRE | SLOW_TIME | MULTI_LIFE.

Definition GameState_eqb (a b : GameState) : bool :=
  match a, b with
  | OPENING_CRAWL, OPENING_CRAWL | MENU, MENU | PLAYING, PLAYING
  | CUTSCENE, CUTSCENE | GAME_OVER, GAME_OVER => true
  | _, _ => false
  end.

Definition Color : Type := (Z * Z * Z)%type.

(** ** class Config

    [SCREEN_WIDTH] and [SCREEN_HEIGHT] are reassigned by the resize event,
    so they live in the game state ([Screen]); the other attributes are
    constants. *)
Module Config.
Definition INITIAL_SCREEN_WIDTH : Z := 900.
Definition INITIAL_SCREEN_HEIGHT : Z := 700.
Definition FPS : Z := 60.
Definition PLAYER_SPEED : Z := 5.
Definition PLAYER_FRAME_DELAY : Z := 5.
Definition DASH_DISTANCE : Z := 80.
Definition DASH_COOLDOWN : Z := 1000.
Definition CUTSCENE_TRIGGER_SCORE : Z := 1000.
Definition PROJECTILE_SIZE : Z * Z := (20, 10).
Definition PROJECTILE_SPEED : Z := 7.
Definition PROJECTILE_FIRE_DELAY : Z := 14.
Definition POWERUP_SPAWN_CHANCE : Q := 2 # 1000.
Definition POWERUP_SIZE : Z := 25.
Definition POWERUP_DURATION : Z := 5000.
Definition INITIAL_LIVES : Z := 3.
Definition CUTSCENE_MESSAGE_DURATION : Z := 3000.
Definition DIFFICULTY_INCREASE_SCORE : Z := 500.
Definition RED : Color := (255, 0, 0).
Definition GREEN : Color := (0, 255, 0).
Definition BLUE : Color := (0, 100, 255).
Definition PURPLE : Color := (128, 0, 128).
Definition ORANGE : Color := (255, 165, 0).
Definition CYAN : Color := (0, 255, 255).
End Config.

Record Screen : Type := mkScreen {
  SCREEN_WIDTH : Z;
  SCREEN_HEIGHT : Z
}.

(** ** Numbers *)

(** [int(f)] on a float: truncation toward zero. *)
Definition trunc (q : Q) : Z := Z.quot (Qnum q) (Z.pos (Qden q)).

(** The conversion pygame applies when a float is assigned to an integer
    [Rect] attribute: the nearest integer, halves away from zero. *)
Definition round_half_away (q : Q) : Z :=
  let n := Qnum q in
  let d := Z.pos (Qden q) in
  if 0 <=? n then (2 * n + d) / (2 * d)
  else - ((2 * (- n) + d) / (2 * d)).

(** [random.randint(a, b)]: [ValueError] on an empty range, else the value
    drawn, which the caller supplies. *)
Definition randint (a b : Z) (drawn : Z) : option Z :=
  if b <? a then None else Some drawn.

Definition Qgeb (a b : Q) : bool := Qle_bool b a.
Definition Qltb (a b : Q) : bool := negb (Qle_bool b a).

(** ** pygame.Rect *)

Record Rect : Type := mkRect {
  rx : Z;
  ry : Z;
  rw : Z;
  rh : Z
}.

(** Extents are never negative in this program, so halving them by a
    shift or by a truncating division gives the same centre. *)
Module RectOps.
Definition left (r : Rect) : Z := rx r.
Definition top (r : Rect) : Z := ry r.
Definition centerx (r : Rect) : Z := rx r + Z.quot (rw r) 2.
Definition centery (r : Rect) : Z := ry r + Z.quot (rh r) 2.
Definition center (r : Rect) : Z * Z := (centerx r, centery r).

Definition set_x (r : Rect) (v : Z) : Rect := mkRect v (ry r) (rw r) (rh r).
Definition set_y (r : Rect) (v : Z) : Rect := mkRect (rx r) v (rw r) (rh r).

(** [rect.center = (cx, cy)] *)
Definition set_center (r : Rect) (c : Z * Z) : Rect :=
  mkRect (fst c - Z.quot (rw r) 2) (snd c - Z.quot (rh r) 2) (rw r) (rh r).

(** One axis of [Rect.clamp]: position [p] and extent [s] of the moving
    rect, position [bp] and extent [bs] of the bounding rect. *)
Definition clamp_axis (p s bp bs : Z) : Z :=
  if s >=? bs then bp + Z.quot bs 2 - Z.quot s 2
  else if p <? bp then bp
  else if p + s >? bp + bs then bp + bs - s
  else p.

(** [self.clamp_ip(bounds)] *)
Definition clamp_ip (r bounds : Rect) : Rect :=
  mkRect (clamp_axis (rx r) (rw r) (rx bounds) (rw bounds))
         (clamp_axis (ry r) (rh r) (ry bounds) (rh bounds))
         (rw r) (rh r).

(** [a.colliderect(b)] as pygame 2 implements it: rects of zero width or
    height collide with nothing; otherwise the open interiors must
    intersect. *)
Definition colliderect (a b : Rect) : bool :=
  if (rw a =? 0) || (rh a =? 0) || (rw b =? 0) || (rh b =? 0) then false
  else
    (Z.min (rx a) (rx a + rw a) <? Z.max (rx b) (rx b + rw b)) &&
    (Z.min (ry a) (ry a + rh a) <? Z.max (ry b) (ry b + rh b)) &&
    (Z.max (rx a) (rx a + rw a) >? Z.min (rx b) (rx b + rw b)) &&
    (Z.max (ry a) (ry a + rh a) >? Z.min (ry b) (ry b + rh b)).

(** [rect.collidepoint(pos)] *)
Definition collidepoint (r : Rect) (p : Z * Z) : bool :=
  (rx r <=? fst p) && (fst p <? rx r + rw r) &&
  (ry r <=? snd p) && (snd p <? ry r + rh r).
End RectOps.

Definition screen_rect (sc : Screen) : Rect :=
  mkRect 0 0 (SCREEN_WIDTH sc) (SCREEN_HEIGHT sc).

(** ** Pressed keys: the part of [pygame.key.get_pressed()] the game reads *)

Record Keys : Type := mkKeys {
  K_a : bool; K_d : bool; K_w : bool; K_s : bool;
  K_LEFT : bool; K_RIGHT : bool; K_UP : bool; K_DOWN : bool;
  K_SPACE : bool; K_LSHIFT : bool
}.

Definition no_keys : Keys :=
  mkKeys false false false false false false false false false false.

(** ** class Player *)

Definition TrailPoint : Type := ((Q * Q) * Z)%type.

Record Player : Type := mkPlayer {
  n_frames : Z;                 (* len(self.frames) *)
  current_frame : Z;
  frame_counter : Z;
  rect : Rect;
  frozen : bool;
  last_dash_time : Z;
  is_dashing : bool;
  dash_trail : list TrailPoint;
  shield_active : bool;
  shield_end_time : Z;
  rapid_fire_active : bool;
  rapid_fire_end_time : Z;
  slow_time_active : bool;
  slow_time_end_time : Z
}.

Module PlayerOps.
Import RectOps.

(** [Player.__init__]: [fw], [fh] are the size of [frames[0]]. *)
Definition init (nfr fw fh : Z) (start_pos : Z * Z) : Player :=
  mkPlayer nfr 0 0 (set_center (mkRect 0 0 fw fh) start_pos) false
           0 false [] false 0 false 0 false 0.

Definition set_rect (p : Player) (r : Rect) : Player :=
  mkPlayer (n_frames p) (current_frame p) (frame_counter p) r (frozen p)
           (last_dash_time p) (is_dashing p) (dash_trail p)
           (shield_active p) (shield_end_time p)
           (rapid_fire_active p) (rapid_fire_end_time p)
           (slow_time_active p) (slow_time_end_time p).

(** [Player.freeze] *)
Definition freeze (p : Player) (b : bool) : Player :=
  mkPlayer (n_frames p) (current_frame p) (frame_counter p) (rect p) b
           (last_dash_time p) (is_dashing p) (dash_trail p)
           (shield_active p) (shield_end_time p)
           (rapid_fire_active p) (rapid_fire_end_time p)
           (slow_time_active p) (slow_time_end_time p).

(** The animation part of [Player.update]. *)
Definition advance_frame (p : Player) : Z * Z :=
  if frozen p then (current_frame p, frame_counter p)
  else
    let fc := frame_counter p + 1 in
    if fc >=? Config.PLAYER_FRAME_DELAY
    then ((current_frame p + 1) mod n_frames p, 0)
    else (current_frame p, fc).

(** One of the three expiry tests of [Player.update]:
    [if self.X_active and current_time > self.X_end_time: self.X_active = False] *)
Definition expire (active : bool) (end_time current_time : Z) : bool :=
  if active && (current_time >? end_time) then false else active.

(** The trail part of [Player.update]. *)
Definition decay_trail (t : list TrailPoint) : list TrailPoint :=
  match t with
  | [] => []
  | _ => map (fun e => (fst e, snd e - 30)) (filter (fun e => snd e >? 0) t)
  end.

(** [Player.update]; [current_time] is its [pygame.time.get_ticks()]. *)
Definition update (p : Player) (current_time : Z) : Player :=
  let fr := advance_frame p in
  mkPlayer (n_frames p) (fst fr) (snd fr) (rect p) (frozen p)
           (last_dash_time p) (is_dashing p) (decay_trail (dash_trail p))
           (expire (shield_active p) (shield_end_time p) current_time)
           (shield_end_time p)
           (expire (rapid_fire_active p) (rapid_fire_end_time p) current_time)
           (rapid_fire_end_time p)
           (expire (slow_time_active p) (slow_time_end_time p) current_time)
           (slow_time_end_time p).

(** [Player.move] *)
Definition move (sc : Screen) (p : Player) (keys : Keys) : Player :=
  if frozen p then p
  else
    let speed : Q :=
      if slow_time_active p then (inject_Z Config.PLAYER_SPEED * (15 # 10))%Q
      else inject_Z Config.PLAYER_SPEED in
    let r0 := rect p in
    let r1 := if K_a keys || K_LEFT keys
              then set_x r0 (round_half_away (inject_Z (rx r0) - speed)%Q)
              else r0 in
    let r2 := if K_d keys || K_RIGHT keys
              then set_x r1 (round_half_away (inject_Z (rx r1) + speed)%Q)
              else r1 in
    let r3 := if K_w keys || K_UP keys
              then set_y r2 (round_half_away (inject_Z (ry r2) - speed)%Q)
              else r2 in
    let r4 := if K_s keys || K_DOWN keys
              then set_y r3 (round_half_away (inject_Z (ry r3) + speed)%Q)
              else r3 in
    set_rect p (clamp_ip r4 (screen_rect sc)).

(** The direction chosen by [Player.dash], after the default and the
    diagonal normalisation. *)
Definition dash_direction (keys : Keys) : Q * Q :=
  let dx0 : Z := 0 in
  let dy0 : Z := 0 in
  let dx1 := if K_a keys || K_LEFT keys then -1 else dx0 in
  let dx2 := if K_d keys || K_RIGHT keys then 1 else dx1 in
  let dy1 := if K_w keys || K_UP keys then -1 else dy0 in
  let dy2 := if K_s keys || K_DOWN keys then 1 else dy1 in
  let dx3 := if (dx2 =? 0) && (dy2 =? 0) then 1 else dx2 in
  if negb (dx3 =? 0) && negb (dy2 =? 0)
  then ((inject_Z dx3 * (707 # 1000))%Q, (inject_Z dy2 * (707 # 1000))%Q)
  else (inject_Z dx3, inject_Z dy2).

(** The five trail entries appended by one dash, [i] in [range(5)]. *)
Definition trail_entry (old_pos : Z * Z) (r : Rect) (i : Z) : TrailPoint :=
  let trail_x := (inject_Z (fst old_pos)
                  + inject_Z (centerx r - fst old_pos) * (inject_Z i / 5))%Q in
  let trail_y := (inject_Z (snd old_pos)
                  + inject_Z (centery r - snd old_pos) * (inject_Z i / 5))%Q in
  ((trail_x, trail_y), 150 - i * 30).

(** [Player.dash]; [current_time] is its [pygame.time.get_ticks()].
    Returns the player and the boolean result. *)
Definition dash (sc : Screen) (p : Player) (keys : Keys) (current_time : Z)
  : Player * bool :=
  if (current_time - last_dash_time p >? Config.DASH_COOLDOWN)
     && (K_SPACE keys || K_LSHIFT keys)
  then
    let d := dash_direction keys in
    let old_pos := center (rect p) in
    let r1 := set_x (rect p)
                (rx (rect p) + trunc (fst d * inject_Z Config.DASH_DISTANCE)%Q) in
    let r2 := set_y r1
                (ry r1 + trunc (snd d * inject_Z Config.DASH_DISTANCE)%Q) in
    let r3 := clamp_ip r2 (screen_rect sc) in
    let trail := dash_trail p ++ map (trail_entry old_pos r3) [0; 1; 2; 3; 4] in
    (mkPlayer (n_frames p) (current_frame p) (frame_counter p) r3 (frozen p)
              current_time (is_dashing p) trail
              (shield_active p) (shield_end_time p)
              (rapid_fire_active p) (rapid_fire_end_time p)
              (slow_time_active p) (slow_time_end_time p),
     true)
  else (p, false).

(** [Player.activate_powerup]; [current_time] is its clock reading. *)
Definition activate_powerup (p : Player) (t : PowerUpType) (current_time : Z)
  : Player :=
  match t with
  | SHIELD =>
      mkPlayer (n_frames p) (current_frame p) (frame_counter p) (rect p)
               (frozen p) (last_dash_time p) (is_dashing p) (dash_trail p)
               true (current_time + Config.POWERUP_DURATION)
               (rapid_fire_active p) (rapid_fire_end_time p)
               (slow_time_active p) (slow_time_end_time p)
  | RAPID_FIRE =>
      mkPlayer (n_frames p) (current_frame p) (frame_counter p) (rect p)
               (frozen p) (last_dash_time p) (is_dashing p) (dash_trail p)
               (shield_active p) (shield_end_time p)
               true (current_time + Config.POWERUP_DURATION)
               (slow_time_active p) (slow_time_end_time p)
  | SLOW_TIME =>
      mkPlayer (n_frames p) (current_frame p) (frame_counter p) (rect p)
               (frozen p) (last_dash_time p) (is_dashing p) (dash_trail p)
               (shield_active p) (shield_end_time p)
               (rapid_fire_active p) (rapid_fire_end_time p)
               true (current_time + Config.POWERUP_DURATION)
  | MULTI_LIFE => p
  end.
End PlayerOps.

(** ** class Projectile *)

Record Projectile : Type := mkProjectile {
  proj_rect : Rect;
  speed : Q;
  trail_positions : list (Z * Z)
}.

Module ProjectileOps.
Import RectOps.

(** [Projectile.__init__] *)
Definition init (x y : Z) (speed_multiplier : Q) : Projectile :=
  mkProjectile
    (mkRect x y (fst Config.PROJECTILE_SIZE) (snd Config.PROJECTILE_SIZE))
    (inject_Z Config.PROJECTILE_SPEED * speed_multiplier)%Q
    [].

(** The trail bookkeeping of [Projectile.update]: append, then drop the
    oldest entry once more than five are stored. *)
Definition push_trail (t : list (Z * Z)) (c : Z * Z) : list (Z * Z) :=
  let t' := t ++ [c] in
  if (Z.of_nat (length t') >? 5) then tl t' else t'.

(** [Projectile.update]: the projectile after the call and its result. *)
Definition update (sc : Screen) (p : Projectile) (time_multiplier : Q)
  : Projectile * bool :=
  let t := push_trail (trail_positions p) (center (proj_rect p)) in
  let r := set_x (proj_rect p)
             (round_half_away
                (inject_Z (rx (proj_rect p)) + speed p * time_multiplier)%Q) in
  (mkProjectile r (speed p) t, rx r <=? SCREEN_WIDTH sc).
End ProjectileOps.

(** ** class ProjectileManager *)

Record ProjectileManager : Type := mkPM {
  projectiles : list Projectile;
  fire_counter : Z;
  pm_active : bool;
  difficulty_multiplier : Q
}.

Module PM.
Import RectOps.

(** [ProjectileManager.__init__] *)
Definition init : ProjectileManager := mkPM [] 0 true 1.

(** The threshold computed at the top of [ProjectileManager.update].  The
    divisor is only ever written by [__init__] (1.0) and by
    [update_difficulty] (1 + k * 0.3 for an integer k), so it is never 0
    and the division never raises. *)
Definition fire_delay (pm : ProjectileManager) (player : Player) : Q :=
  let fd := (inject_Z Config.PROJECTILE_FIRE_DELAY / difficulty_multiplier pm)%Q in
  if rapid_fire_active player then (fd * 2)%Q else fd.

Definition time_multiplier (player : Player) : Q :=
  if slow_time_active player then (3 # 10) else 1.

Definition num_projectiles (pm : ProjectileManager) : nat :=
  if Qltb (difficulty_multiplier pm) 2 then 1%nat else 2%nat.

(** The spawn loop, iterations [idxs]: the projectiles it appends, or
    [None] when [random.randint] raises.  [draw i] is the pair of values
    drawn by [random.randint(0, H - 10)] and [random.uniform(0.8, 1.2)] in
    iteration [i]. *)
Fixpoint spawn_loop (sc : Screen) (pm : ProjectileManager)
    (draw : nat -> Z * Q) (idxs : list nat) : option (list Projectile) :=
  match idxs with
  | [] => Some []
  | i :: rest =>
      match randint 0 (SCREEN_HEIGHT sc - snd Config.PROJECTILE_SIZE)
                    (fst (draw i)) with
      | None => None
      | Some random_y =>
          let speed_mult := (snd (draw i) * difficulty_multiplier pm)%Q in
          match spawn_loop sc pm draw rest with
          | None => None
          | Some ps => Some (ProjectileOps.init 0 random_y speed_mult :: ps)
          end
      end
  end.

(** [for _ in range(num_projectiles)]: the projectiles one firing
    appends. *)
Definition spawn (sc : Screen) (pm : ProjectileManager) (draw : nat -> Z * Q)
  : option (list Projectile) :=
  spawn_loop sc pm draw (seq 0 (num_projectiles pm)).

(** [self.projectiles = [proj for proj in self.projectiles if proj.update(tm)]] *)
Definition advance (sc : Screen) (ps : list Projectile) (tm : Q) : list Projectile :=
  map fst (filter snd (map (fun p => ProjectileOps.update sc p tm) ps)).

(** [ProjectileManager.update]; [None] when the spawn loop raises. *)
Definition update (sc : Screen) (pm : ProjectileManager) (player : Player)
    (draw : nat -> Z * Q) : option ProjectileManager :=
  if negb (pm_active pm) then Some pm
  else
    let fd := fire_delay pm player in
    let tm := time_multiplier player in
    let fc := fire_counter pm + 1 in
    if Qgeb (inject_Z fc) fd then
      match spawn sc pm draw with
      | None => None
      | Some new =>
          Some (mkPM (advance sc (projectiles pm ++ new) tm) 0
                     (pm_active pm) (difficulty_multiplier pm))
      end
    else
      Some (mkPM (advance sc (projectiles pm) tm) fc
                 (pm_active pm) (difficulty_multiplier pm)).

(** The loop of [check_collision]: index order, stop at the first hit,
    [del self.projectiles[i]]. *)
Fixpoint remove_first_hit (ps : list Projectile) (player_rect : Rect)
  : list Projectile * bool :=
  match ps with
  | [] => ([], false)
  | p :: rest =>
      if colliderect (proj_rect p) player_rect then (rest, true)
      else let '(rest', hit) := remove_first_hit rest player_rect in
           (p :: rest', hit)
  end.

(** [ProjectileManager.check_collision] *)
Definition check_collision (pm : ProjectileManager) (player_rect : Rect)
    (player : Player) : ProjectileManager * bool :=
  if shield_active player then (pm, false)
  else
    let '(ps, hit) := remove_first_hit (projectiles pm) player_rect in
    (mkPM ps (fire_counter pm) (pm_active pm) (difficulty_multiplier pm), hit).

(** [ProjectileManager.update_difficulty] *)
Definition update_difficulty (pm : ProjectileManager) (score : Z)
  : ProjectileManager :=
  mkPM (projectiles pm) (fire_counter pm) (pm_active pm)
       (1 + inject_Z (score / Config.DIFFICULTY_INCREASE_SCORE) * (3 # 10))%Q.

(** [ProjectileManager.clear] *)
Definition clear (pm : ProjectileManager) : ProjectileManager :=
  mkPM [] (fire_counter pm) (pm_active pm) (difficulty_multiplier pm).

(** [ProjectileManager.set_active] *)
Definition set_active (pm : ProjectileManager) (a : bool) : ProjectileManager :=
  mkPM (projectiles pm) (fire_counter pm) a (difficulty_multiplier pm).
End PM.

(** ** class Particle, class ParticleSystem *)

Record Particle : Type := mkParticle {
  px : Q;
  py : Q;
  pcolor : Color;
  vx : Q;
  vy : Q;
  lifetime : Z;
  max_lifetime : Z;
  psize : Z
}.

(** The random draws behind one particle: the velocity pair and the
    lifetime drawn by the caller, the size drawn by [Particle.__init__]. *)
Record ParticleDraw : Type := mkParticleDraw {
  d_vx : Q;
  d_vy : Q;
  d_lifetime : Z;
  d_size : Z
}.

Module ParticleOps.

(** [Particle.__init__] *)
Definition init (x y : Q) (c : Color) (d : ParticleDraw) : Particle :=
  mkParticle x y c (d_vx d) (d_vy d) (d_lifetime d) (d_lifetime d) (d_size d).

(** [Particle.update] *)
Definition update (p : Particle) : Particle * bool :=
  let p' := mkParticle (px p + vx p)%Q (py p + vy p)%Q (pcolor p)
                       (vx p) (vy p + (1 # 10))%Q
                       (lifetime p - 1) (max_lifetime p) (psize p) in
  (p', lifetime p' >? 0).

(** [ParticleSystem.add_explosion], [count = 15] by default. *)
Definition add_explosion (ps : list Particle) (x y : Z) (c : Color)
    (count : nat) (draw : nat -> ParticleDraw) : list Particle :=
  ps ++ map (fun i => init (inject_Z x) (inject_Z y) c (draw i)) (seq 0 count).

(** [ParticleSystem.add_trail], [color = Config.CYAN] by default. *)
Definition add_trail (ps : list Particle) (x y : Z) (d : ParticleDraw)
  : list Particle :=
  ps ++ [init (inject_Z x) (inject_Z y) Config.CYAN d].

(** [ParticleSystem.update] *)
Definition system_update (ps : list Particle) : list Particle :=
  map fst (filter snd (map update ps)).
End ParticleOps.

(** ** class PowerUp *)

Record PowerUp : Type := mkPowerUp {
  pu_type : PowerUpType;
  pu_rect : Rect;
  bob_offset : Q;
  spawn_time : Z
}.

Module PowerUpOps.
Import RectOps.

(** [PowerUp.__init__]: [t] is [random.choice(list(PowerUpType))], [bob] is
    [random.uniform(0, 2*pi)], [now] the clock reading. *)
Definition init (x y : Z) (t : PowerUpType) (bob : Q) (now : Z) : PowerUp :=
  mkPowerUp t (mkRect x y Config.POWERUP_SIZE Config.POWERUP_SIZE) bob now.

(** [self.properties[self.type]['color']] *)
Definition color (t : PowerUpType) : Color :=
  match t with
  | SHIELD => Config.BLUE
  | RAPID_FIRE => Config.RED
  | SLOW_TIME => Config.PURPLE
  | MULTI_LIFE => Config.GREEN
  end.

(** [PowerUp.update]; [sin] stands for [math.sin]. *)
Definition update (sin : Q -> Q) (p : PowerUp) (now : Z) : PowerUp * bool :=
  let time_alive := now - spawn_time p in
  let y' := round_half_away
              (inject_Z (ry (pu_rect p))
               + sin (inject_Z time_alive * (5 # 1000) + bob_offset p)
                 * (5 # 10))%Q in
  (mkPowerUp (pu_type p) (set_y (pu_rect p) y') (bob_offset p) (spawn_time p),
   time_alive <? 10000).
End PowerUpOps.

(** ** class Cutscene *)

Record Cutscene : Type := mkCutscene {
  enemy_size : Z * Z;           (* size of self.enemy_image *)
  cs_active : bool;
  stage : Z;
  timer_start : Z;
  enemy_rect : option Rect
}.

Module CutsceneOps.
Import RectOps.

(** [len(self.messages)] *)
Definition n_messages : Z := 2.

(** [Cutscene.__init__] *)
Definition init (esize : Z * Z) : Cutscene := mkCutscene esize false 0 0 None.

(** [Cutscene.start] *)
Definition start (c : Cutscene) (player_rect : Rect) (now : Z) : Cutscene :=
  let enemy_width := fst (enemy_size c) in
  let enemy_height := snd (enemy_size c) in
  mkCutscene (enemy_size c) true 0 now
    (Some (mkRect (left player_rect - enemy_width)
                  (top player_rect - enemy_height / 2)
                  enemy_width enemy_height)).

(** [Cutscene.update] *)
Definition update (c : Cutscene) (current_time : Z) : Cutscene * bool :=
  if negb (cs_active c) then (c, true)
  else if current_time - timer_start c >=? Config.CUTSCENE_MESSAGE_DURATION then
    let st := stage c + 1 in
    if st >=? n_messages
    then (mkCutscene (enemy_size c) false st (timer_start c) (enemy_rect c), true)
    else (mkCutscene (enemy_size c) (cs_active c) st current_time (enemy_rect c),
          false)
  else (c, false).
End CutsceneOps.

(** ** class OpeningCrawl *)

Record OpeningCrawl : Type := mkCrawl {
  text_y_positions : list Q;
  scroll_speed : Q;
  skip_timer : Z;
  can_skip : bool
}.

Module CrawlOps.

(** [len(self.text_lines)] *)
Definition n_lines : nat := 24.

(** [OpeningCrawl.reset], which [__init__] ends with. *)
Definition reset (sc : Screen) : OpeningCrawl :=
  mkCrawl (map (fun i => inject_Z (SCREEN_HEIGHT sc + Z.of_nat i * 50))
               (seq 0 n_lines))
          (3 # 2) 0 false.

(** [OpeningCrawl.update] *)
Definition update (c : OpeningCrawl) : OpeningCrawl * bool :=
  let ys := map (fun y => (y - scroll_speed c)%Q) (text_y_positions c) in
  if Qltb (last ys 0%Q) (inject_Z (-100))
  then (mkCrawl ys (scroll_speed c) (skip_timer c) (can_skip c), true)
  else
    let st := skip_timer c + 1 in
    (mkCrawl ys (scroll_speed c) st (if st >? 60 then true else can_skip c),
     false).
End CrawlOps.

(** ** class Game *)

(** Calls that leave the game object, in the order the program makes them:
    [pygame.mixer.music.play(-1)], [pygame.mixer.music.stop()],
    [sounds['hit'].play()], [sounds['game_over'].play()], and the call of
    [Cutscene.start]. *)
Inductive Effect : Type :=
| MusicPlayLoop | MusicStop | SoundHit | SoundGameOver | CutsceneStart.

Record Game : Type := mkGame {
  screen : Screen;  (* Config.SCREEN_WIDTH, Config.SCREEN_HEIGHT *)
  start_button_size : Z * Z;  (* size of images['start_button'] *)
  opening_crawl : OpeningCrawl;
  player : Player;
  projectile_manager : ProjectileManager;
  cutscene : Cutscene;
  particle_system : list Particle;
  powerups : list PowerUp;
  state : GameState;
  lives : Z;
  score : Z;
  game_start_time : Z;
  cutscene_triggered : bool;
  start_button_rect : option Rect;
  screen_shake : Z;
  shake_offset : Z * Z;
  trace : list Effect  (* effects so far, oldest first *)
}.

(** Field assignments, one per attribute the program writes. *)
Definition set_screen (g : Game) (v : Screen) : Game :=
  mkGame v (start_button_size g) (opening_crawl g) (player g)
    (projectile_manager g) (cutscene g) (particle_system g) (powerups g)
    (state g) (lives g) (score g) (game_start_time g) (cutscene_triggered g)
    (start_button_rect g) (screen_shake g) (shake_offset g) (trace g).

Definition set_opening_crawl (g : Game) (v : OpeningCrawl) : Game :=
  mkGame (screen g) (start_button_size g) v (player g) (projectile_manager g)
    (cutscene g) (particle_system g) (powerups g) (state g) (lives g)
    (score g) (game_start_time g) (cutscene_triggered g) (start_button_rect g)
    (screen_shake g) (shake_offset g) (trace g).

Definition set_player (g : Game) (v : Player) : Game :=
  mkGame (screen g) (start_button_size g) (opening_crawl g) v
    (projectile_manager g) (cutscene g) (particle_system g) (powerups g)
    (state g) (lives g) (score g) (game_start_time g) (cutscene_triggered g)
    (start_button_rect g) (screen_shake g) (shake_offset g) (trace g).

Definition set_projectile_manager (g : Game) (v : ProjectileManager) : Game :=
  mkGame (screen g) (start_button_size g) (opening_crawl g) (player g) v
    (cutscene g) (particle_system g) (powerups g) (state g) (lives g)
    (score g) (game_start_time g) (cutscene_triggered g) (start_button_rect g)
    (screen_shake g) (shake_offset g) (trace g).

Definition set_cutscene (g : Game) (v : Cutscene) : Game :=
  mkGame (screen g) (start_button_size g) (opening_crawl g) (player g)
    (projectile_manager g) v (particle_system g) (powerups g) (state g)
    (lives g) (score g) (game_start_time g) (cutscene_triggered g)
    (start_button_rect g) (screen_shake g) (shake_offset g) (trace g).

Definition set_particle_system (g : Game) (v : list Particle) : Game :=
  mkGame (screen g) (start_button_size g) (opening_crawl g) (player g)
    (projectile_manager g) (cutscene g) v (powerups g) (state g) (lives g)
    (score g) (game_start_time g) (cutscene_triggered g) (start_button_rect g)
    (screen_shake g) (shake_offset g) (trace g).

Definition set_powerups (g : Game) (v : list PowerUp) : Game :=
  mkGame (screen g) (start_button_size g) (opening_crawl g) (player g)
    (projectile_manager g) (cutscene g) (particle_system g) v (state g)
    (lives g) (score g) (game_start_time g) (cutscene_triggered g)
    (start_button_rect g) (screen_shake g) (shake_offset g) (trace g).

Definition set_state (g : Game) (v : GameState) : Game :=
  mkGame (screen g) (start_button_size g) (opening_crawl g) (player g)
    (projectile_manager g) (cutscene g) (particle_system g) (powerups g) v
    (lives g) (score g) (game_start_time g) (cutscene_triggered g)
    (start_button_rect g) (screen_shake g) (shake_offset g) (trace g).

Definition set_lives (g : Game) (v : Z) : Game :=
  mkGame (screen g) (start_button_size g) (opening_crawl g) (player g)
    (projectile_manager g) (cutscene g) (particle_system g) (powerups g)
    (state g) v (score g) (game_start_time g) (cutscene_triggered g)
    (start_button_rect g) (screen_shake g) (shake_offset g) (trace g).

Definition set_score (g : Game) (v : Z) : Game :=
  mkGame (screen g) (start_button_size g) (opening_crawl g) (player g)
    (projectile_manager g) (cutscene g) (particle_system g) (powerups g)
    (state g) (lives g) v (game_start_time g) (cutscene_triggered g)
    (start_button_rect g) (screen_shake g) (shake_offset g) (trace g).

Definition set_game_start_time (g : Game) (v : Z) : Game :=
  mkGame (screen g) (start_button_size g) (opening_crawl g) (player g)
    (projectile_manager g) (cutscene g) (particle_system g) (powerups g)
    (state g) (lives g) (score g) v (cutscene_triggered g)
    (start_button_rect g) (screen_shake g) (shake_offset g) (trace g).

Definition set_cutscene_triggered (g : Game) (v : bool) : Game :=
  mkGame (screen g) (start_button_size g) (opening_crawl g) (player g)
    (projectile_manager g) (cutscene g) (particle_system g) (powerups g)
    (state g) (lives g) (score g) (game_start_time g) v (start_button_rect g)
    (screen_shake g) (shake_offset g) (trace g).

Definition set_start_button_rect (g : Game) (v : option Rect) : Game :=
  mkGame (screen g) (start_button_size g) (opening_crawl g) (player g)
    (projectile_manager g) (cutscene g) (particle_system g) (powerups g)
    (state g) (lives g) (score g) (game_start_time g) (cutscene_triggered g) v
    (screen_shake g) (shake_offset g) (trace g).

Definition set_screen_shake (g : Game) (v : Z) : Game :=
  mkGame (screen g) (start_button_size g) (opening_crawl g) (player g)
    (projectile_manager g) (cutscene g) (particle_system g) (powerups g)
    (state g) (lives g) (score g) (game_start_time g) (cutscene_triggered g)
    (start_button_rect g) v (shake_offset g) (trace g).

Definition set_shake_offset (g : Game) (v : Z * Z) : Game :=
  mkGame (screen g) (start_button_size g) (opening_crawl g) (player g)
    (projectile_manager g) (cutscene g) (particle_system g) (powerups g)
    (state g) (lives g) (score g) (game_start_time g) (cutscene_triggered g)
    (start_button_rect g) (screen_shake g) v (trace g).

Definition set_trace (g : Game) (v : list Effect) : Game :=
  mkGame (screen g) (start_button_size g) (opening_crawl g) (player g)
    (projectile_manager g) (cutscene g) (particle_system g) (powerups g)
    (state g) (lives g) (score g) (game_start_time g) (cutscene_triggered g)
    (start_button_rect g) (screen_shake g) (shake_offset g) v.

Definition emit (g : Game) (e : Effect) : Game := set_trace g (trace g ++ [e]).

(** What one pass through [update_game] / [update_cutscene] reads from the
    outside world.  Each [pygame.time.get_ticks()] call site has its own
    reading; draws of the [random] module are listed per call site. *)
Record Env : Type := mkEnv {
  keys : Keys;                              (* pygame.key.get_pressed() *)
  t_cutscene_start : Z;                     (* clock in Cutscene.start *)
  t_dash : Z;                               (* clock in Player.dash *)
  t_player_update : Z;                      (* clock in Player.update *)
  t_powerup_update : nat -> Z;              (* clock in the i-th PowerUp.update *)
  t_powerup_spawn : Z;                      (* clock in PowerUp.__init__ *)
  t_activate : nat -> Z;                    (* clock in activate_powerup, i-th power-up *)
  t_cutscene_update : Z;                    (* clock in Cutscene.update *)
  math_sin : Q -> Q;                        (* math.sin *)
  r_trail : ParticleDraw;                   (* draws of add_trail *)
  r_projectile : nat -> Z * Q;              (* draws of the i-th spawned projectile *)
  r_spawn_roll : Q;                         (* random.random() *)
  r_spawn_pos : Z * Z;                      (* the two randint of the spawn *)
  r_spawn_type : PowerUpType;               (* random.choice *)
  r_spawn_bob : Q;                          (* random.uniform(0, 2*pi) *)
  r_pickup_explosion : nat -> nat -> ParticleDraw;
  r_hit_explosion : nat -> ParticleDraw;
  r_shake : Z * Z                           (* the two randint of the shake *)
}.

(** What [Game.__init__] learns from the loaded assets. *)
Record Assets : Type := mkAssets {
  a_n_frames : Z;
  a_frame_size : Z * Z;
  a_enemy_size : Z * Z;
  a_start_button_size : Z * Z
}.

Module GameOps.
Import RectOps.

Definition screen_center (sc : Screen) : Z * Z :=
  (SCREEN_WIDTH sc / 2, SCREEN_HEIGHT sc / 2).

(** [Game.__init__] *)
Definition init (a : Assets) : Game :=
  let sc := mkScreen Config.INITIAL_SCREEN_WIDTH Config.INITIAL_SCREEN_HEIGHT in
  mkGame sc (a_start_button_size a)
         (CrawlOps.reset sc)
         (PlayerOps.init (a_n_frames a) (fst (a_frame_size a))
                         (snd (a_frame_size a)) (screen_center sc))
         PM.init
         (CutsceneOps.init (a_enemy_size a))
         [] []
         OPENING_CRAWL Config.INITIAL_LIVES 0 0 false None 0 (0, 0) [].

(** [Game.start_game]; [now] is its clock reading, [music_ok] tells
    whether loading and starting the music raised no [pygame.error]. *)
Definition start_game (now : Z) (music_ok : bool) (g : Game) : Game :=
  let g := set_state g PLAYING in
  let g := set_lives g Config.INITIAL_LIVES in
  let g := set_score g 0 in
  let g := set_cutscene_triggered g false in
  let g := set_game_start_time g now in
  let g := set_player g
             (PlayerOps.set_rect (player g)
                (set_center (rect (player g)) (screen_center (screen g)))) in
  let g := set_projectile_manager g (PM.clear (projectile_manager g)) in
  let g := set_projectile_manager g (PM.set_active (projectile_manager g) true) in
  let g := set_powerups g [] in
  let g := set_particle_system g [] in
  if music_ok then emit g MusicPlayLoop else g.

(** [Game.reset_game] *)
Definition reset_game (g : Game) : Game :=
  emit (set_state g MENU) MusicStop.

(** [Game.update_opening_crawl] *)
Definition update_opening_crawl (g : Game) : Game :=
  let r := CrawlOps.update (opening_crawl g) in
  let g := set_opening_crawl g (fst r) in
  if snd r then set_state g MENU else g.

(** The cutscene branch at the top of [update_game]. *)
Definition trigger_cutscene (env : Env) (g : Game) : Game :=
  let g := set_cutscene_triggered g true in
  let g := set_state g CUTSCENE in
  let g := emit (set_cutscene g
                   (CutsceneOps.start (cutscene g) (rect (player g))
                                      (t_cutscene_start env)))
                CutsceneStart in
  let g := set_player g (PlayerOps.freeze (player g) true) in
  set_projectile_manager g (PM.set_active (projectile_manager g) false).

(** [self.player.move(keys)] *)
Definition handle_input (env : Env) (g : Game) : Game :=
  set_player g (PlayerOps.move (screen g) (player g) (keys env)).

(** [if self.player.dash(keys): self.particle_system.add_trail(...)] *)
Definition handle_dash (env : Env) (g : Game) : Game :=
  let r := PlayerOps.dash (screen g) (player g) (keys env) (t_dash env) in
  let g := set_player g (fst r) in
  if snd r
  then set_particle_system g
         (ParticleOps.add_trail (particle_system g)
            (centerx (rect (player g))) (centery (rect (player g)))
            (r_trail env))
  else g.

(** [self.powerups = [p for p in self.powerups if p.update()]] *)
Definition update_powerups (env : Env) (g : Game) : Game :=
  let updated :=
    map (fun ip => PowerUpOps.update (math_sin env) (snd ip)
                     (t_powerup_update env (fst ip)))
        (combine (seq 0 (length (powerups g))) (powerups g)) in
  set_powerups g (map fst (filter snd updated)).

(** The spawn test and the append that follows it; [None] when one of the
    two [random.randint] calls raises. *)
Definition spawn_powerup (env : Env) (g : Game) : option Game :=
  if Qltb (r_spawn_roll env) Config.POWERUP_SPAWN_CHANCE
  then
    match randint 50 (SCREEN_WIDTH (screen g) - 50) (fst (r_spawn_pos env)) with
    | None => None
    | Some x =>
        match randint 50 (SCREEN_HEIGHT (screen g) - 50)
                      (snd (r_spawn_pos env)) with
        | None => None
        | Some y =>
            Some (set_powerups g
                    (powerups g ++
                     [PowerUpOps.init x y (r_spawn_type env) (r_spawn_bob env)
                                      (t_powerup_spawn env)]))
        end
    end
  else Some g.

(** The collection loop over [self.powerups[:]]; [i] is the index in the
    copy.  A collected power-up is removed from [self.powerups], the
    others stay in order. *)
Fixpoint collect (env : Env) (i : nat) (pus : list PowerUp) (g : Game) : Game :=
  match pus with
  | [] => set_powerups g []
  | pu :: rest =>
      if colliderect (pu_rect pu) (rect (player g)) then
        let g := match pu_type pu with
                 | MULTI_LIFE => set_lives g (lives g + 1)
                 | t => set_player g
                          (PlayerOps.activate_powerup (player g) t
                                                      (t_activate env i))
                 end in
        let g := set_particle_system g
                   (ParticleOps.add_explosion (particle_system g)
                      (centerx (pu_rect pu)) (centery (pu_rect pu))
                      (PowerUpOps.color (pu_type pu)) 15
                      (r_pickup_explosion env i)) in
        collect env (S i) rest g
      else
        let g := collect env (S i) rest g in
        set_powerups g (pu :: powerups g)
  end.

Definition collect_powerups (env : Env) (g : Game) : Game :=
  collect env 0 (powerups g) g.

(** The projectile collision block. *)
Definition check_collisions (env : Env) (g : Game) : Game :=
  let r := PM.check_collision (projectile_manager g) (rect (player g))
                              (player g) in
  let g := set_projectile_manager g (fst r) in
  if snd r then
    if negb (shield_active (player g)) then
      let g := set_lives g (lives g - 1) in
      let g := emit g SoundHit in
      let g := set_screen_shake g 10 in
      let g := set_particle_system g
                 (ParticleOps.add_explosion (particle_system g)
                    (centerx (rect (player g))) (centery (rect (player g)))
                    Config.RED 15 (r_hit_explosion env)) in
      if lives g <=? 0 then
        emit (emit (set_state g GAME_OVER) MusicStop) SoundGameOver
      else g
    else g
  else g.

(** The screen-shake block. *)
Definition update_screen_shake (env : Env) (g : Game) : Game :=
  if screen_shake g >? 0
  then set_shake_offset (set_screen_shake g (screen_shake g - 1)) (r_shake env)
  else set_shake_offset g (0, 0).

(** [update_game] from "Handle player input" through the update of the
    player and of the difficulty: what a playing tick does before the
    first call that can raise. *)
Definition before_projectiles (env : Env) (g : Game) : Game :=
  let g := handle_input env g in
  let g := handle_dash env g in
  let g := set_player g (PlayerOps.update (player g) (t_player_update env)) in
  set_projectile_manager g
    (PM.update_difficulty (projectile_manager g) (score g)).

(** [update_game] from "Handle player input" through "Check power-up
    collection": everything a playing tick does before the projectile
    collision block.  [None] when the projectile spawn or the power-up
    spawn raises. *)
Definition before_collisions (env : Env) (g : Game) : option Game :=
  let g := before_projectiles env g in
  match PM.update (screen g) (projectile_manager g) (player g)
                  (r_projectile env) with
  | None => None
  | Some pm =>
      let g := set_projectile_manager g pm in
      let g := set_particle_system g
                 (ParticleOps.system_update (particle_system g)) in
      let g := update_powerups env g in
      match spawn_powerup env g with
      | None => None
      | Some g => Some (collect_powerups env g)
      end
  end.

(** [update_game] from "Check projectile collisions" to the end. *)
Definition from_collisions (env : Env) (g : Game) : Game :=
  let g := check_collisions env g in
  let g := update_screen_shake env g in
  set_score g (score g + 1).

(** [update_game] from "Handle player input" to the end. *)
Definition playing_tick (env : Env) (g : Game) : option Game :=
  match before_collisions env g with
  | None => None
  | Some g => Some (from_collisions env g)
  end.

(** The condition of the cutscene trigger. *)
Definition cutscene_due (g : Game) : bool :=
  negb (cutscene_triggered g) && (score g >=? Config.CUTSCENE_TRIGGER_SCORE).

(** [Game.update_game]; [None] when it raises. *)
Definition update_game (env : Env) (g : Game) : option Game :=
  if negb (GameState_eqb (state g) PLAYING) then Some g
  else if cutscene_due g then Some (trigger_cutscene env g)
  else playing_tick env g.

(** [Game.update_cutscene] *)
Definition update_cutscene (env : Env) (g : Game) : Game :=
  let r := CutsceneOps.update (cutscene g) (t_cutscene_update env) in
  let g := set_cutscene g (fst r) in
  if snd r then
    let g := set_state g PLAYING in
    let g := set_player g (PlayerOps.freeze (player g) false) in
    set_projectile_manager g (PM.set_active (projectile_manager g) true)
  else g.
End GameOps.

(** ** The main loop *)

Inductive Event : Type :=
| QUIT
| VIDEORESIZE (w h : Z)
| MOUSEBUTTONDOWN (button : Z) (pos : Z * Z)
| OTHER_EVENT.

(** An event together with what [start_game] would observe if this event
    started a game: the clock reading and whether the music could start. *)
Definition Input : Type := (Event * (Z * bool))%type.

Module Loop.
Import RectOps GameOps.

(** Truth value of a [Rect]: both extents non-zero. *)
Definition rect_bool (r : Rect) : bool := negb (rw r =? 0) && negb (rh r =? 0).

(** The body of the [for event in pygame.event.get()] loop for one event;
    [None] is [return False]. *)
Definition handle_event (i : Input) (g : Game) : option Game :=
  match fst i with
  | QUIT => None
  | VIDEORESIZE w h => Some (set_screen g (mkScreen w h))
  | MOUSEBUTTONDOWN button pos =>
      if button =? 1 then
        match state g, start_button_rect g with
        | MENU, Some r =>
            if rect_bool r
            then if collidepoint r pos
                 then Some (start_game (fst (snd i)) (snd (snd i)) g)
                 else Some g
            else Some g
        | GAME_OVER, _ => Some (reset_game g)
        | _, _ => Some g
        end
      else Some g
  | OTHER_EVENT => Some g
  end.

(** [Game.handle_events] *)
Fixpoint handle_events (evs : list Input) (g : Game) : option Game :=
  match evs with
  | [] => Some g
  | i :: rest =>
      match handle_event i g with
      | None => None
      | Some g' => handle_events rest g'
      end
  end.

(** The update dispatch of [Game.run]; [None] when [update_game]
    raises. *)
Definition update (env : Env) (g : Game) : option Game :=
  match state g with
  | OPENING_CRAWL => Some (update_opening_crawl g)
  | PLAYING => update_game env g
  | CUTSCENE => Some (update_cutscene env g)
  | _ => Some g
  end.

(** The draw dispatch of [Game.run], as far as it writes game state:
    [draw_menu] stores the start button's rect. *)
Definition draw (g : Game) : Game :=
  match state g with
  | MENU =>
      set_start_button_rect g
        (Some (set_center (mkRect 0 0 (fst (start_button_size g))
                                      (snd (start_button_size g)))
                          (screen_center (screen g))))
  | _ => g
  end.

(** One iteration of the [while running] loop; [None] when the loop
    ends there, by [break] or by an exception leaving [run]. *)
Definition frame (evs : list Input) (env : Env) (g : Game) : option Game :=
  match handle_events evs g with
  | None => None
  | Some g1 =>
      match update env g1 with
      | None => None
      | Some g2 => Some (draw g2)
      end
  end.

(** The games the loop can be in at the top of an iteration. *)
Inductive reachable (a : Assets) : Game -> Prop :=
| reach_init : reachable a (init a)
| reach_frame : forall g evs env g',
    reachable a g -> frame evs env g = Some g' -> reachable a g'.

(** Running the loop on a list of per-iteration inputs. *)
Fixpoint run (inputs : list (list Input * Env)) (g : Game) : option Game :=
  match inputs with
  | [] => Some g
  | (evs, env) :: rest =>
      match frame evs env g with
      | None => None
      | Some g' => run rest g'
      end
  end.
End Loop.

(** ** Sessions

    A session starts with [start_game] and lasts while loop iterations begin
    in [PLAYING] or [CUTSCENE]; it is over once the state is [GAME_OVER]. *)
Inductive in_session (s0 : Game) : Game -> Prop :=
| session_start : in_session s0 s0
| session_frame : forall g evs env g',
    in_session s0 g ->
    state g = PLAYING \/ state g = CUTSCENE ->
    Loop.frame evs env g = Some g' ->
    in_session s0 g'.

Definition Effect_eqb (a b : Effect) : bool :=
  match a, b with
  | MusicPlayLoop, MusicPlayLoop | MusicStop, MusicStop | SoundHit, SoundHit
  | SoundGameOver, SoundGameOver | CutsceneStart, CutsceneStart => true
  | _, _ => false
  end.

(** Number of [Cutscene.start] calls recorded in a trace. *)
Definition cutscene_starts (tr : list Effect) : nat :=
  length (filter (Effect_eqb CutsceneStart) tr).

(** ** The difficulty formula as the specification words it:
    [1.0 + floor(score / 500) * 0.3], with [/] the division of reals. *)
Definition spec_multiplier (score : Z) : Q :=
  (1 + inject_Z (Qfloor (inject_Z score / 500)) * (3 # 10))%Q.

(** ** Concrete inputs used by the examples below *)

Definition demo_assets : Assets := mkAssets 4 (32, 32) (64, 64) (200, 80).

Definition demo_draw : ParticleDraw := mkParticleDraw 0 (-1) 20 2.

(** An environment in which every clock reads [now], no power-up spawns,
    and every projectile is fired at height [proj_y] with speed factor 1. *)
Definition demo_env (ks : Keys) (now : Z) (proj_y : Z) : Env :=
  mkEnv ks now now now (fun _ => now) now (fun _ => now) now
        (fun _ => 0%Q) demo_draw (fun _ => (proj_y, 1%Q)) 1%Q (100, 100)
        SHIELD 0%Q (fun _ _ => demo_draw) (fun _ => demo_draw) (0, 0).

Definition demo_player : Player :=
  PlayerOps.init 4 32 32 (450, 350).

Definition demo_screen : Screen := mkScreen 900 700.

Definition space_only : Keys :=
  mkKeys false false false false false false false false true false.

(** Two projectiles over the demo player and one far away. *)
Definition demo_projectiles : list Projectile :=
  [ mkProjectile (mkRect 100 100 20 10) 7 [];
    mkProjectile (mkRect 440 340 20 10) 7 [];
    mkProjectile (mkRect 430 350 20 10) 7 [] ].

Definition demo_pm : ProjectileManager := mkPM demo_projectiles 3 true 1.

Definition shielded_player : Player :=
  PlayerOps.activate_powerup demo_player SHIELD 0.

(** Some direction key is held. *)
Definition movement_held (keys : Keys) : bool :=
  K_a keys || K_LEFT keys || K_d keys || K_RIGHT keys ||
  K_w keys || K_UP keys || K_s keys || K_DOWN keys.


(** Iterations with no event, clock readings 16 ms apart from [t0]. *)
Definition idle_frames (t0 : Z) (n : nat) (proj_y : Z)
  : list (list Input * Env) :=
  map (fun i => ([], demo_env no_keys (t0 + 16 * Z.of_nat i) proj_y))
      (seq 0 n).

(** An iteration whose only event is a left click at [pos]. *)
Definition click_frame (now : Z) (pos : Z * Z) (proj_y : Z)
  : list Input * Env :=
  ([(MOUSEBUTTONDOWN 1 pos, (now, true))], demo_env no_keys now proj_y).

(** The game a list of inputs leads to from [Game.__init__] (the initial
    game again if the loop quits on the way). *)
Definition game_after (inputs : list (list Input * Env)) : Game :=
  match Loop.run inputs (GameOps.init demo_assets) with
  | Some g => g
  | None => GameOps.init demo_assets
  end.

(** The opening crawl runs to its end, a click on the start button starts
    the game. *)
Definition to_start (proj_y : Z) : list (list Input * Env) :=
  idle_frames 0 1301 0 ++ [click_frame 20816 (450, 350) proj_y].

(** A game about to trigger the cutscene: projectiles pass above the
    player for 1000 ticks. *)
Definition threshold_game : Game :=
  game_after (to_start 0 ++ idle_frames 20832 999 0).

(** A game on its last life: projectiles are fired at the player's height. *)
Definition last_life_game : Game :=
  game_after (to_start 340 ++ idle_frames 20832 99 340).

(** [Loop.run] restricted to a session: every iteration must begin in
    [PLAYING] or [CUTSCENE]. *)
Fixpoint session_run (inputs : list (list Input * Env)) (g : Game)
  : option Game :=
  match inputs with
  | [] => Some g
  | (evs, env) :: rest =>
      match state g with
      | PLAYING | CUTSCENE =>
          match Loop.frame evs env g with
          | None => None
          | Some g' => session_run rest g'
          end
      | _ => None
      end
  end.

(** The fields of a game the session properties speak about. *)
Definition summary (g : Game)
  : GameState * Z * Z * bool * list Effect :=
  (state g, lives g, score g, cutscene_triggered g, trace g).

(** The invariant relating [lives] to the state. *)
Definition lives_ok (g : Game) : Prop :=
  0 <= lives g /\
  (state g = PLAYING \/ state g = CUTSCENE -> 1 <= lives g) /\
  (state g = GAME_OVER -> lives g = 0).

(** Where a session run ends (the start again if it cannot run). *)
Definition session_after (s : Game) (inputs : list (list Input * Env)) : Game :=
  match session_run inputs s with
  | Some g => g
  | None => s
  end.

(** The menu, once the opening crawl has finished. *)
Definition menu_game : Game := game_after (idle_frames 0 1301 0).

(** A first session that runs through the cutscene and some ticks more. *)
Definition first_session_end : Game :=
  session_after (GameOps.start_game 20816 true menu_game)
                (idle_frames 20832 1400 0).

(** A whole first game (cutscene included) lost, and the click that leads
    back to the menu. *)
Definition back_in_menu : Game :=
  game_after (to_start 0 ++ idle_frames 20832 1400 0
              ++ idle_frames 43232 150 340
              ++ [click_frame 45632 (450, 350) 0]).

(** A second session, long enough to reach the trigger score again. *)
Definition second_session_end : Game :=
  session_after (GameOps.start_game 45648 true back_in_menu)
                (idle_frames 45664 1001 0).

(** The session invariant: [c0] calls of [Cutscene.start] were recorded
    before the session began. *)
Definition session_ok (c0 : nat) (g : Game) : Prop :=
  cutscene_starts (trace g)
  = (c0 + (if cutscene_triggered g then 1 else 0))%nat /\
  (cutscene_triggered g = false -> score g <= Config.CUTSCENE_TRIGGER_SCORE) /\
  (cutscene_triggered g = true -> Config.CUTSCENE_TRIGGER_SCORE <= score g).

(** ** Further definitions used by the properties *)

(** [r] lies within [b]. *)
Definition inside (r b : Rect) : Prop :=
  rx b <= rx r /\ rx r + rw r <= rx b + rw b /\
  ry b <= ry r /\ ry r + rh r <= ry b + rh b.

(** The displacement of a dash as the specification describes it: the
    held direction (right wins over left, down over up), rightward when
    none is held, 80 along an axis, 56 on each axis of a diagonal. *)
Definition dash_offset (keys : Keys) : Z * Z :=
  let hx := if K_d keys || K_RIGHT keys then 1
            else if K_a keys || K_LEFT keys then -1 else 0 in
  let vy := if K_s keys || K_DOWN keys then 1
            else if K_w keys || K_UP keys then -1 else 0 in
  if (hx =? 0) && (vy =? 0) then (80, 0)
  else if negb (hx =? 0) && negb (vy =? 0) then (56 * hx, 56 * vy)
  else (80 * hx, 80 * vy).

(** [Player.update] called once per clock reading, in order. *)
Definition player_updates (p : Player) (times : list Z) : Player :=
  fold_left PlayerOps.update times p.

Definition effect_active (t : PowerUpType) (p : Player) : bool :=
  match t with
  | SHIELD => shield_active p
  | RAPID_FIRE => rapid_fire_active p
  | SLOW_TIME => slow_time_active p
  | MULTI_LIFE => false
  end.

Definition effect_end_time (t : PowerUpType) (p : Player) : Z :=
  match t with
  | SHIELD => shield_end_time p
  | RAPID_FIRE => rapid_fire_end_time p
  | SLOW_TIME => slow_time_end_time p
  | MULTI_LIFE => 0
  end.

Definition is_multi_life (t : PowerUpType) : bool :=
  match t with MULTI_LIFE => true | _ => false end.

(** The transitions of the state machine: what the update dispatch of
    [Game.run] may do to the state, and what one event may do. *)
Definition update_may (a b : GameState) : bool :=
  match a, b with
  | OPENING_CRAWL, (OPENING_CRAWL | MENU) => true
  | MENU, MENU => true
  | PLAYING, (PLAYING | CUTSCENE | GAME_OVER) => true
  | CUTSCENE, (CUTSCENE | PLAYING) => true
  | GAME_OVER, GAME_OVER => true
  | _, _ => false
  end.

Definition event_may (a b : GameState) : bool :=
  match a, b with
  | MENU, (MENU | PLAYING) => true
  | GAME_OVER, (GAME_OVER | MENU) => true
  | OPENING_CRAWL, OPENING_CRAWL | PLAYING, PLAYING | CUTSCENE, CUTSCENE => true
  | _, _ => false
  end.

(** A game about to trigger the cutscene, built directly. *)
Definition at_threshold : Game :=
  set_score (GameOps.start_game 0 true (GameOps.init demo_assets)) 1000.

(** [n] calls of [OpeningCrawl.update], none of which may report
    completion. *)
Fixpoint crawl_ticks (n : nat) (c : OpeningCrawl) : option OpeningCrawl :=
  match n with
  | O => Some c
  | S n' =>
      let r := CrawlOps.update c in
      if snd r then None else crawl_ticks n' (fst r)
  end.

(** Bounds every reachable game respects. *)
Definition game_ok (g : Game) : Prop :=
  0 <= score g /\
  (1 <= difficulty_multiplier (projectile_manager g))%Q /\
  0 <= screen_shake g <= 9 /\
  0 <= fire_counter (projectile_manager g).

(** The crawl as [Game.__init__] creates it (the window is 900 x 700
    then). *)
Definition initial_crawl : OpeningCrawl :=
  CrawlOps.reset (mkScreen Config.INITIAL_SCREEN_WIDTH
                           Config.INITIAL_SCREEN_HEIGHT).

(** The demo player moved close to the right edge of the demo window. *)
Definition far_right_player : Player :=
  PlayerOps.set_rect demo_player (mkRect 860 334 32 32).



(** Whether a playing tick that is not the cutscene trigger raises: the
    projectile manager fires in a window less than 10 high, or the
    power-up spawn test succeeds in a window less than 100 wide or high. *)
Definition tick_raises (env : Env) (g : Game) : bool :=
  let b := GameOps.before_projectiles env g in
  let pm := projectile_manager b in
  (pm_active pm
   && Qle_bool (PM.fire_delay pm (player b)) (inject_Z (fire_counter pm + 1))
   && (SCREEN_HEIGHT (screen g) <? 10))
  || (Qltb (r_spawn_roll env) Config.POWERUP_SPAWN_CHANCE
      && ((SCREEN_WIDTH (screen g) <? 100) || (SCREEN_HEIGHT (screen g) <? 100))).

(** [demo_env] with a successful power-up spawn test. *)
Definition spawning_env (now : Z) : Env :=
  mkEnv no_keys now now now (fun _ => now) now (fun _ => now) now
        (fun _ => 0%Q) demo_draw (fun _ => (0, 1%Q)) (1 # 1000) (100, 100)
        SHIELD 0%Q (fun _ _ => demo_draw) (fun _ => demo_draw) (0, 0).

(** A game just started, its window then resized to 300 x 80. *)
Definition narrow_game : Game :=
  set_screen (GameOps.start_game 0 true (GameOps.init demo_assets))
             (mkScreen 300 80).

(** ** Properties *)

Section CheckCollision.
Import RectOps.

Lemma remove_first_hit_none ps player_rect :
  existsb (fun p => colliderect (proj_rect p) player_rect) ps = false ->
  PM.remove_first_hit ps player_rect = (ps, false).
Proof.
  induction ps as [|p rest IH]; cbn [existsb PM.remove_first_hit]; intro H.
  - reflexivity.
  - apply orb_false_iff in H as [Hp Hrest].
    rewrite Hp, (IH Hrest). reflexivity.
Qed.

Lemma remove_first_hit_some ps player_rect :
  existsb (fun p => colliderect (proj_rect p) player_rect) ps = true ->
  exists l1 p l2,
    ps = l1 ++ p :: l2 /\
    forallb (fun q => negb (colliderect (proj_rect q) player_rect)) l1 = true /\
    colliderect (proj_rect p) player_rect = true /\
    PM.remove_first_hit ps player_rect = (l1 ++ l2, true).
Proof.
  induction ps as [|p rest IH]; cbn [existsb PM.remove_first_hit]; intro H.
  - discriminate.
  - destruct (colliderect (proj_rect p) player_rect) eqn:Hp.
    + exists [], p, rest. cbn. auto.
    + cbn in H. destruct (IH H) as (l1 & q & l2 & -> & Hl1 & Hq & Hr).
      exists (p :: l1), q, l2. cbn. rewrite Hp, Hr, Hl1. auto.
Qed.

(** C2. With the shield active, [check_collision] answers [False] and hands
    back the manager it was given, projectile list included, whatever
    overlaps the player. *)
Theorem check_collision_shielded pm player_rect player :
  shield_active player = true ->
  PM.check_collision pm player_rect player = (pm, false).
Proof.
  intro H. unfold PM.check_collision. rewrite H. reflexivity.
Qed.

Lemma check_collision_shielded_witness :
  existsb (fun p => colliderect (proj_rect p) (rect shielded_player))
          (projectiles demo_pm) = true /\
  PM.check_collision demo_pm (rect shielded_player) shielded_player
  = (demo_pm, false).
Proof.
  split; [reflexivity|].
  apply (check_collision_shielded demo_pm (rect shielded_player) shielded_player).
  reflexivity.
Defined.

(** C3. Without shield: if some projectile overlaps the player, the call
    answers [True] and deletes exactly the first overlapping projectile of
    the stored order (the list shrinks by one, everything else keeps its
    place); if none overlaps, it answers [False] and changes nothing. *)
Theorem check_collision_unshielded pm player_rect player :
  shield_active player = false ->
  let r := PM.check_collision pm player_rect player in
  let overlaps := fun p => colliderect (proj_rect p) player_rect in
  (existsb overlaps (projectiles pm) = true ->
     snd r = true /\
     (exists l1 p l2,
        projectiles pm = l1 ++ p :: l2 /\
        forallb (fun q => negb (overlaps q)) l1 = true /\
        overlaps p = true /\
        projectiles (fst r) = l1 ++ l2) /\
     S (length (projectiles (fst r))) = length (projectiles pm) /\
     fire_counter (fst r) = fire_counter pm /\
     pm_active (fst r) = pm_active pm /\
     difficulty_multiplier (fst r) = difficulty_multiplier pm) /\
  (existsb overlaps (projectiles pm) = false -> r = (pm, false)).
Proof.
  intros Hs r overlaps. subst r. unfold PM.check_collision. rewrite Hs.
  split; intro H.
  - destruct (remove_first_hit_some _ _ H) as (l1 & p & l2 & E & Hl1 & Hp & Hr).
    rewrite Hr. cbn. repeat split.
    + exists l1, p, l2. auto.
    + rewrite E, !length_app. cbn. lia.
  - rewrite (remove_first_hit_none _ _ H). destruct pm; reflexivity.
Qed.

Lemma check_collision_unshielded_witness :
  shield_active demo_player = false /\
  map proj_rect
      (projectiles (fst (PM.check_collision demo_pm (rect demo_player) demo_player)))
  = [mkRect 100 100 20 10; mkRect 430 350 20 10] /\
  S (length (projectiles
               (fst (PM.check_collision demo_pm (rect demo_player) demo_player))))
  = length (projectiles demo_pm).
Proof.
  split; [reflexivity|]. split; [reflexivity|].
  apply (check_collision_unshielded demo_pm (rect demo_player) demo_player
           eq_refl).
  reflexivity.
Defined.

End CheckCollision.

Section Difficulty.

Lemma floor_of_ratio (score : Z) :
  Qfloor (inject_Z score / 500) = score / 500.
Proof.
  unfold Qdiv, Qmult, Qinv, inject_Z, Qfloor. cbn.
  rewrite Z.mul_1_r. reflexivity.
Qed.

Lemma multiplier_of_steps_le (a b : Z) :
  a <= b ->
  (1 + inject_Z a * (3 # 10) <= 1 + inject_Z b * (3 # 10))%Q.
Proof.
  intro H. apply Qplus_le_r. apply Qmult_le_compat_r.
  - rewrite <- Zle_Qle. exact H.
  - discriminate.
Qed.

Lemma multiplier_positive (score : Z) (pm : ProjectileManager) :
  0 <= score ->
  (0 < difficulty_multiplier (PM.update_difficulty pm score))%Q.
Proof.
  intro H. cbn.
  assert (0 <= score / Config.DIFFICULTY_INCREASE_SCORE)
    by (apply Z.div_pos; [exact H | reflexivity]).
  apply Qlt_le_trans with (y := 1%Q); [reflexivity|].
  rewrite <- (Qplus_0_r 1) at 1. apply Qplus_le_r.
  apply Qmult_le_0_compat; [|discriminate].
  change 0%Q with (inject_Z 0). rewrite <- Zle_Qle. assumption.
Qed.

(** C6. [update_difficulty] stores [1.0 + floor(score / 500) * 0.3]; as a
    function of the score the stored multiplier never decreases, is
    constant on every interval [500k .. 500k + 499], and takes the values
    1.0, 1.0, 1.3 and 1.6 at scores 0, 499, 500 and 1000. *)
Theorem update_difficulty_step pm score :
  0 <= score ->
  let m := fun s => difficulty_multiplier (PM.update_difficulty pm s) in
  m score = spec_multiplier score /\
  (forall score', score <= score' -> (m score <= m score')%Q) /\
  (forall k, 500 * k <= score <= 500 * k + 499 ->
             m score = (1 + inject_Z k * (3 # 10))%Q) /\
  (m 0%Z == 1)%Q /\ (m 499%Z == 1)%Q /\
  (m 500%Z == 13 # 10)%Q /\ (m 1000%Z == 16 # 10)%Q.
Proof.
  intros Hs m. subst m. cbn [PM.update_difficulty difficulty_multiplier].
  repeat split; try reflexivity.
  - unfold spec_multiplier. rewrite floor_of_ratio. reflexivity.
  - intros s' Hle. apply multiplier_of_steps_le.
    apply Z.div_le_mono; [reflexivity | exact Hle].
  - intros k Hk. unfold Config.DIFFICULTY_INCREASE_SCORE.
    replace (score / 500) with k; [reflexivity|].
    apply Z.div_unique with (r := score - 500 * k); lia.
Qed.

Lemma update_difficulty_step_witness :
  difficulty_multiplier (PM.update_difficulty PM.init 1234) = spec_multiplier 1234 /\
  (difficulty_multiplier (PM.update_difficulty PM.init 1234) == 16 # 10)%Q.
Proof.
  split.
  - destruct (update_difficulty_step PM.init 1234) as [H _]; [lia | exact H].
  - reflexivity.
Defined.

End Difficulty.

Section PlayerEffects.

Lemma expire_spec active end_time now :
  PlayerOps.expire active end_time now = active && (now <=? end_time).
Proof.
  unfold PlayerOps.expire.
  destruct active; cbn; [|reflexivity].
  rewrite Z.gtb_ltb, Z.ltb_antisym.
  destruct (now <=? end_time); reflexivity.
Qed.

(** C8, as the code has it.  [Player.update] switches a timed effect off
    when the clock is strictly past its expiry ([expiry < now]) and leaves
    it as it was otherwise; an effect whose expiry equals [now] stays
    active.  An inactive effect stays inactive. *)
Theorem update_expires_strictly p now :
  let p' := PlayerOps.update p now in
  (shield_active p' = shield_active p && (now <=? shield_end_time p) /\
   rapid_fire_active p' = rapid_fire_active p && (now <=? rapid_fire_end_time p) /\
   slow_time_active p' = slow_time_active p && (now <=? slow_time_end_time p)) /\
  ((shield_end_time p < now -> shield_active p' = false) /\
   (rapid_fire_end_time p < now -> rapid_fire_active p' = false) /\
   (slow_time_end_time p < now -> slow_time_active p' = false)) /\
  ((now <= shield_end_time p -> shield_active p' = shield_active p) /\
   (now <= rapid_fire_end_time p -> rapid_fire_active p' = rapid_fire_active p) /\
   (now <= slow_time_end_time p -> slow_time_active p' = slow_time_active p)).
Proof.
  cbn [PlayerOps.update shield_active rapid_fire_active slow_time_active].
  rewrite !expire_spec.
  repeat split; try reflexivity; intro H.
  1-3: (rewrite (proj2 (Z.leb_gt _ _) H); apply andb_false_r).
  all: (apply Z.leb_le in H; rewrite H; apply andb_true_r).
Qed.

(** C8 as stated fails: a shield whose expiry equals the clock reading is
    still active after [Player.update]. *)
Lemma update_keeps_effect_at_expiry :
  shield_end_time shielded_player <= 5000 /\
  shield_active shielded_player = true /\
  shield_active (PlayerOps.update shielded_player 5000) = true.
Proof. split; [vm_compute; discriminate | split; reflexivity]. Qed.

End PlayerEffects.

Ltac break_ifs :=
  repeat match goal with
         | |- context [if ?c then _ else _] => destruct c
         end.

Section Spawning.
Import RectOps.

Lemma num_projectiles_bounds pm : (1 <= PM.num_projectiles pm <= 2)%nat.
Proof. unfold PM.num_projectiles. break_ifs; lia. Qed.

Lemma spawn_loop_returns sc pm draw idxs :
  snd Config.PROJECTILE_SIZE <= SCREEN_HEIGHT sc ->
  exists new, PM.spawn_loop sc pm draw idxs = Some new.
Proof.
  intro H. induction idxs as [|i rest (new & IH)]; cbn [PM.spawn_loop].
  - eauto.
  - unfold randint.
    destruct (SCREEN_HEIGHT sc - snd Config.PROJECTILE_SIZE <? 0) eqn:E.
    + apply Z.ltb_lt in E. lia.
    + rewrite IH. eauto.
Qed.

Lemma spawn_loop_shape sc pm draw idxs : forall new,
  PM.spawn_loop sc pm draw idxs = Some new ->
  length new = length idxs /\
  Forall (fun p => trail_positions p = [] /\ rx (proj_rect p) = 0 /\
                   rw (proj_rect p) = 20 /\ rh (proj_rect p) = 10) new /\
  snd Config.PROJECTILE_SIZE <= SCREEN_HEIGHT sc \/ idxs = [].
Proof.
  induction idxs as [|i rest IH]; cbn [PM.spawn_loop]; intros new H.
  - right. reflexivity.
  - left. unfold randint in H.
    destruct (SCREEN_HEIGHT sc - snd Config.PROJECTILE_SIZE <? 0) eqn:E;
      [discriminate|].
    apply Z.ltb_ge in E.
    destruct (PM.spawn_loop sc pm draw rest) as [ps|] eqn:Er; [|discriminate].
    injection H as <-. cbn [length].
    destruct (IH ps eq_refl) as [(L & F & _)| ->].
    + repeat split; [lia | constructor; [cbn; auto | exact F] | lia].
    + cbn in Er. injection Er as <-.
      repeat split; [repeat constructor | lia].
Qed.

(** What a firing appends: one or two fresh projectiles at the left edge,
    and only in a window at least 10 high. *)
Lemma spawn_shape sc pm draw new :
  PM.spawn sc pm draw = Some new ->
  length new = PM.num_projectiles pm /\
  (1 <= length new <= 2)%nat /\
  Forall (fun p => trail_positions p = [] /\ rx (proj_rect p) = 0 /\
                   rw (proj_rect p) = 20 /\ rh (proj_rect p) = 10) new /\
  snd Config.PROJECTILE_SIZE <= SCREEN_HEIGHT sc.
Proof.
  unfold PM.spawn. intro H.
  pose proof (num_projectiles_bounds pm) as B.
  destruct (spawn_loop_shape _ _ _ _ _ H) as [(L & F & Hh)|E].
  - rewrite length_seq in L. rewrite L. auto.
  - exfalso. apply (f_equal (@length nat)) in E.
    rewrite length_seq in E. cbn in E. lia.
Qed.

Lemma spawn_returns sc pm draw :
  snd Config.PROJECTILE_SIZE <= SCREEN_HEIGHT sc ->
  exists new, PM.spawn sc pm draw = Some new.
Proof. intro H. apply spawn_loop_returns. exact H. Qed.



Lemma pm_update_returns sc pm player draw :
  snd Config.PROJECTILE_SIZE <= SCREEN_HEIGHT sc ->
  exists pm', PM.update sc pm player draw = Some pm'.
Proof.
  intro H. unfold PM.update.
  destruct (pm_active pm); cbn [negb]; [|eauto].
  destruct (Qgeb _ _); [|eauto].
  destruct (spawn_returns sc pm draw H) as (new & ->). eauto.
Qed.




End Spawning.

Section FireDelay.




End FireDelay.

Section Clamping.
Import RectOps.

Lemma clamp_axis_inside p s bp bs :
  s < bs ->
  bp <= clamp_axis p s bp bs /\ clamp_axis p s bp bs + s <= bp + bs.
Proof.
  intro H. unfold clamp_axis.
  destruct (s >=? bs) eqn:E1; [rewrite Z.geb_leb in E1; apply Z.leb_le in E1; lia|].
  destruct (p <? bp) eqn:E2; [lia|]. apply Z.ltb_ge in E2.
  destruct (p + s >? bp + bs) eqn:E3; [lia|].
  rewrite Z.gtb_ltb in E3. apply Z.ltb_ge in E3. lia.
Qed.

(** A position not before the bound's start is kept, unless the far edge
    would stick out: then the rect is pushed back just enough. *)
Lemma clamp_axis_min p s bp bs :
  s < bs -> bp <= p ->
  clamp_axis p s bp bs = Z.min p (bp + bs - s).
Proof.
  intros H Hp. unfold clamp_axis.
  destruct (s >=? bs) eqn:E1; [rewrite Z.geb_leb in E1; apply Z.leb_le in E1; lia|].
  destruct (p <? bp) eqn:E2; [apply Z.ltb_lt in E2; lia|].
  destruct (p + s >? bp + bs) eqn:E3; rewrite Z.gtb_ltb in E3;
    [apply Z.ltb_lt in E3 | apply Z.ltb_ge in E3]; lia.
Qed.

Lemma clamp_ip_inside r b :
  rw r < rw b -> rh r < rh b ->
  inside (clamp_ip r b) b /\
  rw (clamp_ip r b) = rw r /\ rh (clamp_ip r b) = rh r.
Proof.
  intros Hw Hh. unfold inside, clamp_ip. cbn.
  pose proof (clamp_axis_inside (rx r) (rw r) (rx b) (rw b) Hw).
  pose proof (clamp_axis_inside (ry r) (rh r) (ry b) (rh b) Hh).
  repeat split; lia.
Qed.

End Clamping.

Section Dash.
Import RectOps.

Lemma no_movement_direction keys :
  movement_held keys = false ->
  PlayerOps.dash_direction keys = (inject_Z 1, inject_Z 0).
Proof.
  destruct keys as [a d w s l r u dn sp sh].
  unfold movement_held, PlayerOps.dash_direction. cbn.
  destruct a, l, d, r, w, u, s, dn; cbn; intro H;
    try discriminate H; reflexivity.
Qed.

(** C7. Starting from an empty trail: when more than [DASH_COOLDOWN] ms
    have passed since the last dash, a dash key is held and no direction
    key is held, [dash] moves the rect 80 to the right and clamps it to the
    screen: a player smaller than the window ends inside the window with
    its size unchanged; if it started on screen its new left edge is the
    smaller of [x + 80] and [SCREEN_WIDTH - width] and its top edge is
    unchanged, so it lands exactly 80 to the right whenever that still
    fits.  The dash leaves a trail of exactly five points with alphas 150,
    120, 90, 60, 30, stores [now] as the last dash time and answers
    [True].  When the cooldown has not elapsed it answers [False] and
    returns the player unchanged. *)
Theorem dash_default_and_cooldown sc p keys now :
  dash_trail p = [] ->
  let r := PlayerOps.dash sc p keys now in
  (now - last_dash_time p > Config.DASH_COOLDOWN ->
   K_SPACE keys || K_LSHIFT keys = true ->
   movement_held keys = false ->
   snd r = true /\
   rect (fst r)
   = clamp_ip (mkRect (rx (rect p) + Config.DASH_DISTANCE) (ry (rect p))
                      (rw (rect p)) (rh (rect p)))
              (screen_rect sc) /\
   (rw (rect p) < SCREEN_WIDTH sc -> rh (rect p) < SCREEN_HEIGHT sc ->
    inside (rect (fst r)) (screen_rect sc) /\
    rw (rect (fst r)) = rw (rect p) /\ rh (rect (fst r)) = rh (rect p)) /\
   (rw (rect p) < SCREEN_WIDTH sc -> rh (rect p) < SCREEN_HEIGHT sc ->
    0 <= rx (rect p) + 80 ->
    0 <= ry (rect p) -> ry (rect p) + rh (rect p) <= SCREEN_HEIGHT sc ->
    rx (rect (fst r))
    = Z.min (rx (rect p) + 80) (SCREEN_WIDTH sc - rw (rect p)) /\
    ry (rect (fst r)) = ry (rect p)) /\
   (rw (rect p) < SCREEN_WIDTH sc -> rh (rect p) < SCREEN_HEIGHT sc ->
    0 <= rx (rect p) + 80 -> rx (rect p) + 80 + rw (rect p) <= SCREEN_WIDTH sc ->
    0 <= ry (rect p) -> ry (rect p) + rh (rect p) <= SCREEN_HEIGHT sc ->
    rect (fst r) = mkRect (rx (rect p) + 80) (ry (rect p))
                          (rw (rect p)) (rh (rect p))) /\
   length (dash_trail (fst r)) = 5%nat /\
   map snd (dash_trail (fst r)) = [150; 120; 90; 60; 30] /\
   last_dash_time (fst r) = now) /\
  (now - last_dash_time p <= Config.DASH_COOLDOWN -> r = (p, false)).
Proof.
  intros Ht r. subst r. unfold PlayerOps.dash. split.
  - intros Hcd Hkey Hmove.
    rewrite (proj2 (Z.gtb_lt _ _) (Z.gt_lt _ _ Hcd)), Hkey.
    cbn [andb fst snd]. rewrite (no_movement_direction _ Hmove), Ht.
    cbn [fst snd rect dash_trail last_dash_time app map length].
    assert (E80 : trunc (inject_Z 1 * inject_Z Config.DASH_DISTANCE) = 80)
      by reflexivity.
    assert (E0 : trunc (inject_Z 0 * inject_Z Config.DASH_DISTANCE) = 0)
      by reflexivity.
    rewrite E80, E0.
    assert (Er : set_y (set_x (rect p) (rx (rect p) + 80))
                       (ry (set_x (rect p) (rx (rect p) + 80)) + 0)
                 = mkRect (rx (rect p) + 80) (ry (rect p))
                          (rw (rect p)) (rh (rect p))).
    { unfold set_y, set_x. cbn. rewrite Z.add_0_r. reflexivity. }
    rewrite Er.
    split; [reflexivity|]. split; [reflexivity|].
    split; [|split; [|split; [|repeat split]]].
    + intros Hw Hh.
      exact (clamp_ip_inside
               (mkRect (rx (rect p) + 80) (ry (rect p)) (rw (rect p))
                       (rh (rect p)))
               (screen_rect sc) Hw Hh).
    + intros Hw Hh Hx0 Hy0 Hy1. unfold clamp_ip, screen_rect.
      cbn [rx ry rw rh].
      rewrite (clamp_axis_min _ _ _ _ Hw Hx0), (clamp_axis_min _ _ _ _ Hh Hy0).
      split; [reflexivity | lia].
    + intros Hw Hh Hx0 Hx1 Hy0 Hy1. unfold clamp_ip, screen_rect.
      cbn [rx ry rw rh].
      rewrite (clamp_axis_min _ _ _ _ Hw Hx0), (clamp_axis_min _ _ _ _ Hh Hy0).
      f_equal; lia.
  - intro Hcd.
    assert (E : (now - last_dash_time p >? Config.DASH_COOLDOWN) = false).
    { rewrite Z.gtb_ltb. apply Z.ltb_ge. exact Hcd. }
    rewrite E. reflexivity.
Qed.

Lemma dash_default_and_cooldown_witness :
  (rect demo_player = mkRect 434 334 32 32 /\
   rect (fst (PlayerOps.dash demo_screen demo_player space_only 2000))
   = mkRect 514 334 32 32) /\
  (rect far_right_player = mkRect 860 334 32 32 /\
   rect (fst (PlayerOps.dash demo_screen far_right_player space_only 2000))
   = mkRect 868 334 32 32 /\
   inside (rect (fst (PlayerOps.dash demo_screen far_right_player space_only
                                     2000)))
          (screen_rect demo_screen)) /\
  PlayerOps.dash demo_screen demo_player space_only 700 = (demo_player, false).
Proof.
  split; [split; reflexivity|]. split.
  - destruct (dash_default_and_cooldown demo_screen far_right_player
                space_only 2000 eq_refl) as (H & _).
    destruct H as (_ & _ & Hin & Hmin & _);
      [vm_compute; reflexivity | reflexivity | reflexivity |].
    split; [reflexivity|]. split.
    + destruct Hmin as (Ex & Ey); try (cbn; lia).
      destruct Hin as (_ & Ew & Eh); try (cbn; lia).
      destruct (rect (fst (PlayerOps.dash demo_screen far_right_player
                                          space_only 2000))) as [x y w h].
      cbn [rx ry rw rh] in *. rewrite Ex, Ey, Ew, Eh. reflexivity.
    + destruct Hin as (Hin & _); try (cbn; lia). exact Hin.
  - apply (dash_default_and_cooldown demo_screen demo_player space_only 700
             eq_refl).
    vm_compute. discriminate.
Defined.

End Dash.

Section PlayingTick.
Import RectOps GameOps.

(** The fields the session properties speak about. *)
Lemma collect_frame env pus : forall i g,
  state (collect env i pus g) = state g /\
  score (collect env i pus g) = score g /\
  cutscene_triggered (collect env i pus g) = cutscene_triggered g /\
  trace (collect env i pus g) = trace g /\
  screen (collect env i pus g) = screen g /\
  cutscene (collect env i pus g) = cutscene g /\
  lives g <= lives (collect env i pus g).
Proof.
  induction pus as [|pu rest IH]; intros i g; cbn [collect].
  - cbn. repeat split; lia.
  - destruct (colliderect (pu_rect pu) (rect (player g))).
    + match goal with
      | |- context [collect env (S i) rest ?X] =>
          destruct (IH (S i) X) as (E1 & E2 & E3 & E4 & E5 & E6 & E7);
          rewrite E1, E2, E3, E4, E5, E6
      end.
      destruct (pu_type pu); cbn in *; repeat split; lia.
    + destruct (IH (S i) g) as (E1 & E2 & E3 & E4 & E5 & E6 & E7).
      cbn. repeat split; assumption.
Qed.

Lemma before_projectiles_frame env g :
  state (before_projectiles env g) = state g /\
  score (before_projectiles env g) = score g /\
  cutscene_triggered (before_projectiles env g) = cutscene_triggered g /\
  trace (before_projectiles env g) = trace g /\
  screen (before_projectiles env g) = screen g /\
  cutscene (before_projectiles env g) = cutscene g /\
  lives (before_projectiles env g) = lives g /\
  screen_shake (before_projectiles env g) = screen_shake g.
Proof.
  unfold before_projectiles, handle_dash, handle_input.
  break_ifs; repeat split.
Qed.

(** The steps of [before_collisions], when none of them raises. *)
Lemma before_collisions_steps env g b :
  before_collisions env g = Some b ->
  exists pm g1,
    PM.update (screen g) (projectile_manager (before_projectiles env g))
              (player (before_projectiles env g)) (r_projectile env)
    = Some pm /\
    spawn_powerup env
      (update_powerups env
         (set_particle_system
            (set_projectile_manager (before_projectiles env g) pm)
            (ParticleOps.system_update
               (particle_system (before_projectiles env g)))))
    = Some g1 /\
    b = collect_powerups env g1.
Proof.
  unfold before_collisions. cbv zeta.
  destruct (before_projectiles_frame env g) as (_ & _ & _ & _ & Esc & _).
  rewrite Esc.
  destruct (PM.update _ _ _ _) as [pm|]; [|discriminate].
  cbn [set_projectile_manager particle_system].
  match goal with
  | |- match ?X with _ => _ end = _ -> _ => destruct X as [g1|] eqn:E1
  end; [|discriminate].
  intro H. injection H as <-. exists pm, g1. auto.
Qed.

Lemma spawn_powerup_frame env g g1 :
  spawn_powerup env g = Some g1 ->
  state g1 = state g /\ score g1 = score g /\
  cutscene_triggered g1 = cutscene_triggered g /\ trace g1 = trace g /\
  screen g1 = screen g /\ cutscene g1 = cutscene g /\ lives g1 = lives g /\
  player g1 = player g /\ projectile_manager g1 = projectile_manager g /\
  screen_shake g1 = screen_shake g /\ particle_system g1 = particle_system g.
Proof.
  unfold spawn_powerup, randint. intro H.
  destruct (Qltb _ _); [|injection H as <-; repeat split].
  destruct (SCREEN_WIDTH (screen g) - 50 <? 50); [discriminate|].
  destruct (SCREEN_HEIGHT (screen g) - 50 <? 50); [discriminate|].
  injection H as <-. repeat split.
Qed.

Lemma before_collisions_frame env g b :
  before_collisions env g = Some b ->
  state b = state g /\
  score b = score g /\
  cutscene_triggered b = cutscene_triggered g /\
  trace b = trace g /\
  screen b = screen g /\
  cutscene b = cutscene g /\
  lives g <= lives b.
Proof.
  intro H. destruct (before_collisions_steps _ _ _ H) as (pm & g1 & _ & E1 & ->).
  destruct (spawn_powerup_frame _ _ _ E1)
    as (S1 & S2 & S3 & S4 & S5 & S6 & S7 & _).
  destruct (before_projectiles_frame env g)
    as (P1 & P2 & P3 & P4 & P5 & P6 & P7 & _).
  unfold collect_powerups.
  destruct (collect_frame env (powerups g1) 0 g1)
    as (E1' & E2 & E3 & E4 & E5 & E6 & E7).
  rewrite E1', E2, E3, E4, E5, E6, S1, S2, S3, S4, S5, S6.
  rewrite S7 in E7. cbn in *.
  rewrite P1, P2, P3, P4, P5, P6. rewrite P7 in E7.
  repeat split. exact E7.
Qed.

(** What the collision block does to the session fields, by cases on the
    answer of [check_collision]. *)
Lemma check_collisions_cases env g :
  let hit := snd (PM.check_collision (projectile_manager g) (rect (player g))
                                     (player g)) in
  let g' := check_collisions env g in
  score g' = score g /\
  cutscene_triggered g' = cutscene_triggered g /\
  screen g' = screen g /\
  cutscene g' = cutscene g /\
  (hit = false ->
     state g' = state g /\ lives g' = lives g /\ trace g' = trace g) /\
  (hit = true ->
     lives g' = lives g - 1 /\
     (lives g - 1 <= 0 ->
        state g' = GAME_OVER /\
        trace g' = trace g ++ [SoundHit; MusicStop; SoundGameOver]) /\
     (0 < lives g - 1 ->
        state g' = state g /\ trace g' = trace g ++ [SoundHit])).
Proof.
  intros hit g'. subst hit g'. unfold check_collisions, PM.check_collision.
  destruct (shield_active (player g)) eqn:Hs.
  - cbn. repeat split; intros; try discriminate; reflexivity.
  - destruct (PM.remove_first_hit (projectiles (projectile_manager g))
                                  (rect (player g))) as [ps hit] eqn:Hr.
    cbn [fst snd]. destruct hit.
    + cbn [set_projectile_manager player shield_active]. rewrite Hs.
      cbn -[ParticleOps.add_explosion Z.leb Z.sub].
      destruct (lives g - 1 <=? 0) eqn:Hl.
      * apply Z.leb_le in Hl. cbn.
        repeat split; intros; try discriminate; try lia.
        rewrite <- !app_assoc. reflexivity.
      * apply Z.leb_gt in Hl. cbn.
        repeat split; intros; try discriminate; try lia.
    + cbn. repeat split; intros; try discriminate; reflexivity.
Qed.

Lemma update_screen_shake_frame env g :
  state (update_screen_shake env g) = state g /\
  lives (update_screen_shake env g) = lives g /\
  score (update_screen_shake env g) = score g /\
  cutscene_triggered (update_screen_shake env g) = cutscene_triggered g /\
  trace (update_screen_shake env g) = trace g /\
  screen (update_screen_shake env g) = screen g /\
  cutscene (update_screen_shake env g) = cutscene g.
Proof.
  unfold update_screen_shake. break_ifs; cbn; repeat split.
Qed.

End PlayingTick.

Section UpdateGame.
Import RectOps GameOps.

(** The rest of a playing tick, from the projectile collision block on,
    by cases on the answer of [check_collision] there. *)
Lemma from_collisions_summary env b :
  let hit := snd (PM.check_collision (projectile_manager b) (rect (player b))
                                     (player b)) in
  let g' := from_collisions env b in
  score g' = score b + 1 /\
  cutscene_triggered g' = cutscene_triggered b /\
  screen g' = screen b /\
  cutscene g' = cutscene b /\
  (hit = false ->
     state g' = state b /\ lives g' = lives b /\ trace g' = trace b) /\
  (hit = true ->
     lives g' = lives b - 1 /\
     (lives b - 1 <= 0 ->
        state g' = GAME_OVER /\
        trace g' = trace b ++ [SoundHit; MusicStop; SoundGameOver]) /\
     (0 < lives b - 1 ->
        state g' = state b /\ trace g' = trace b ++ [SoundHit])).
Proof.
  intros hit g'. subst g'. unfold from_collisions. cbv zeta.
  destruct (check_collisions_cases env b) as (C1 & C2 & C3 & C4 & C5 & C6).
  fold hit in C5, C6.
  destruct (update_screen_shake_frame env (check_collisions env b))
    as (S1 & S2 & S3 & S4 & S5 & S6 & S7).
  cbn [set_score score cutscene_triggered screen cutscene state lives trace].
  rewrite S1, S2, S3, S4, S5, S6, S7, C1, C2, C3, C4.
  split; [reflexivity|]. split; [reflexivity|]. split; [reflexivity|].
  split; [reflexivity|]. split; [exact C5 | exact C6].
Qed.

(** One playing tick that does not raise, in terms of the game [b] just
    before the collision block and of the answer of [check_collision]
    there. *)
Lemma playing_tick_summary env g b :
  before_collisions env g = Some b ->
  let hit := snd (PM.check_collision (projectile_manager b) (rect (player b))
                                     (player b)) in
  let g' := from_collisions env b in
  playing_tick env g = Some g' /\
  score g' = score g + 1 /\
  cutscene_triggered g' = cutscene_triggered g /\
  screen g' = screen g /\
  cutscene g' = cutscene g /\
  lives g <= lives b /\
  (hit = false ->
     state g' = state g /\ lives g' = lives b /\ trace g' = trace g) /\
  (hit = true ->
     lives g' = lives b - 1 /\
     (lives b - 1 <= 0 ->
        state g' = GAME_OVER /\
        trace g' = trace g ++ [SoundHit; MusicStop; SoundGameOver]) /\
     (0 < lives b - 1 ->
        state g' = state g /\ trace g' = trace g ++ [SoundHit])).
Proof.
  intros Hb hit g'.
  destruct (before_collisions_frame env g b Hb)
    as (B1 & B2 & B3 & B4 & B5 & B6 & B7).
  destruct (from_collisions_summary env b) as (F1 & F2 & F3 & F4 & F5 & F6).
  fold hit in F5, F6. fold g' in F1, F2, F3, F4, F5, F6.
  rewrite B1, B4 in F5, F6. rewrite B2 in F1. rewrite B3 in F2.
  rewrite B5 in F3. rewrite B6 in F4.
  split; [unfold playing_tick; rewrite Hb; reflexivity|].
  split; [exact F1|]. split; [exact F2|]. split; [exact F3|].
  split; [exact F4|]. split; [exact B7|]. split; [exact F5 | exact F6].
Qed.

Lemma update_game_playing env g :
  state g = PLAYING ->
  update_game env g
  = if cutscene_due g then Some (trigger_cutscene env g)
    else playing_tick env g.
Proof. intro H. unfold update_game. rewrite H. reflexivity. Qed.

(** The three ways [update_game] returns. *)
Lemma update_game_cases env g g' :
  update_game env g = Some g' ->
  (state g <> PLAYING /\ g' = g) \/
  (state g = PLAYING /\ cutscene_due g = true /\ g' = trigger_cutscene env g) \/
  (state g = PLAYING /\ cutscene_due g = false /\
   exists b, before_collisions env g = Some b /\ g' = from_collisions env b).
Proof.
  unfold update_game, playing_tick. intro H.
  destruct (GameState_eqb (state g) PLAYING) eqn:Hst; cbn [negb] in H.
  - assert (Hp : state g = PLAYING)
      by (destruct (state g); cbn in Hst; congruence).
    right. destruct (cutscene_due g).
    + left. injection H as <-. auto.
    + right. destruct (before_collisions env g) as [b|]; [|discriminate].
      injection H as <-. eauto.
  - left. injection H as <-. split; [|reflexivity].
    intro E. rewrite E in Hst. discriminate.
Qed.

Lemma spawn_powerup_returns env g :
  100 <= SCREEN_WIDTH (screen g) -> 100 <= SCREEN_HEIGHT (screen g) ->
  exists g1, spawn_powerup env g = Some g1.
Proof.
  intros Hw Hh. unfold spawn_powerup, randint.
  destruct (Qltb _ _); [|eauto].
  rewrite (proj2 (Z.ltb_ge _ _)) by lia.
  rewrite (proj2 (Z.ltb_ge _ _)) by lia. eauto.
Qed.

(** When exactly a playing tick raises. *)
Lemma before_collisions_raises env g :
  before_collisions env g = None <-> tick_raises env g = true.
Proof.
  unfold before_collisions, tick_raises. cbv zeta.
  destruct (before_projectiles_frame env g) as (_ & _ & _ & _ & Esc & _).
  rewrite Esc.
  set (b := before_projectiles env g).
  assert (S0 : forall pm,
            screen (update_powerups env
                      (set_particle_system (set_projectile_manager b pm)
                         (ParticleOps.system_update
                            (particle_system (set_projectile_manager b pm)))))
            = screen g) by (intro pm; cbn; exact Esc).
  assert (Sp : forall g0, screen g0 = screen g ->
            (spawn_powerup env g0 = None <->
             Qltb (r_spawn_roll env) Config.POWERUP_SPAWN_CHANCE
             && ((SCREEN_WIDTH (screen g) <? 100)
                 || (SCREEN_HEIGHT (screen g) <? 100)) = true)).
  { intros g0 E0. unfold spawn_powerup, randint. rewrite E0.
    destruct (Qltb _ _); cbn [andb]; [|split; discriminate].
    destruct (SCREEN_WIDTH (screen g) - 50 <? 50) eqn:A;
      destruct (SCREEN_WIDTH (screen g) <? 100) eqn:A';
      try (apply Z.ltb_lt in A); try (apply Z.ltb_ge in A);
      try (apply Z.ltb_lt in A'); try (apply Z.ltb_ge in A'); try lia;
      cbn [orb]; [split; reflexivity|].
    destruct (SCREEN_HEIGHT (screen g) - 50 <? 50) eqn:B;
      destruct (SCREEN_HEIGHT (screen g) <? 100) eqn:B';
      try (apply Z.ltb_lt in B); try (apply Z.ltb_ge in B);
      try (apply Z.ltb_lt in B'); try (apply Z.ltb_ge in B'); try lia;
      split; try reflexivity; discriminate. }
  unfold PM.update, Qgeb.
  destruct (pm_active (projectile_manager b)); cbn [negb andb].
  - destruct (Qle_bool _ _); cbn [andb].
    + destruct (SCREEN_HEIGHT (screen g) <? 10) eqn:Hh.
      * apply Z.ltb_lt in Hh. cbn [orb].
        destruct (PM.spawn (screen g) (projectile_manager b) (r_projectile env))
          as [new|] eqn:Es; [|split; reflexivity].
        destruct (spawn_shape _ _ _ _ Es) as (_ & _ & _ & C).
        cbn in C. lia.
      * apply Z.ltb_ge in Hh. cbn [orb].
        destruct (spawn_returns (screen g) (projectile_manager b)
                    (r_projectile env)) as (new & ->); [cbn; lia|].
        match goal with
        | |- match spawn_powerup env ?X with _ => _ end = None <-> _ =>
            rewrite <- (Sp X) by (cbn; exact Esc);
            destruct (spawn_powerup env X)
        end; split; congruence.
    + cbn [orb].
      match goal with
      | |- match spawn_powerup env ?X with _ => _ end = None <-> _ =>
          rewrite <- (Sp X) by (cbn; exact Esc);
          destruct (spawn_powerup env X)
      end; split; congruence.
  - cbn [orb].
    match goal with
    | |- match spawn_powerup env ?X with _ => _ end = None <-> _ =>
        rewrite <- (Sp X) by (cbn; exact Esc);
        destruct (spawn_powerup env X)
    end; split; congruence.
Qed.

(** In a window at least 100 x 100 no playing tick raises. *)
Lemma before_collisions_returns env g :
  100 <= SCREEN_WIDTH (screen g) -> 100 <= SCREEN_HEIGHT (screen g) ->
  exists b, before_collisions env g = Some b.
Proof.
  intros Hw Hh.
  destruct (before_collisions env g) as [b|] eqn:E; [eauto|].
  apply before_collisions_raises in E. unfold tick_raises in E.
  rewrite (proj2 (Z.ltb_ge (SCREEN_HEIGHT (screen g)) 10)) in E by lia.
  rewrite (proj2 (Z.ltb_ge (SCREEN_HEIGHT (screen g)) 100)) in E by lia.
  rewrite (proj2 (Z.ltb_ge (SCREEN_WIDTH (screen g)) 100)) in E by lia.
  rewrite !andb_false_r in E. discriminate.
Qed.

Lemma update_game_returns env g :
  100 <= SCREEN_WIDTH (screen g) -> 100 <= SCREEN_HEIGHT (screen g) ->
  exists g', update_game env g = Some g'.
Proof.
  intros Hw Hh. unfold update_game, playing_tick.
  destruct (negb _); [eauto|]. destruct (cutscene_due g); [eauto|].
  destruct (before_collisions_returns env g Hw Hh) as (b & ->). eauto.
Qed.

Lemma trigger_cutscene_fields env g :
  let g' := trigger_cutscene env g in
  state g' = CUTSCENE /\
  cutscene_triggered g' = true /\
  frozen (player g') = true /\
  pm_active (projectile_manager g') = false /\
  cs_active (cutscene g') = true /\
  stage (cutscene g') = 0 /\
  trace g' = trace g ++ [CutsceneStart] /\
  score g' = score g /\
  lives g' = lives g /\
  projectiles (projectile_manager g') = projectiles (projectile_manager g) /\
  rect (player g') = rect (player g).
Proof. cbn. repeat split. Qed.

Lemma start_game_fields now ok g :
  let s := start_game now ok g in
  state s = PLAYING /\
  lives s = Config.INITIAL_LIVES /\
  score s = 0 /\
  cutscene_triggered s = false /\
  game_start_time s = now /\
  projectiles (projectile_manager s) = [] /\
  pm_active (projectile_manager s) = true /\
  powerups s = [] /\
  particle_system s = [] /\
  trace s = trace g ++ (if ok then [MusicPlayLoop] else []).
Proof.
  unfold start_game. destruct ok; cbn; repeat split.
  symmetry. apply app_nil_r.
Qed.

Lemma update_cutscene_fields env g :
  let g' := update_cutscene env g in
  (state g' = PLAYING \/ state g' = state g) /\
  lives g' = lives g /\ score g' = score g /\
  cutscene_triggered g' = cutscene_triggered g /\ trace g' = trace g.
Proof.
  unfold update_cutscene. cbv zeta.
  destruct (snd (CutsceneOps.update (cutscene g) (t_cutscene_update env)));
    cbn; repeat split; auto.
Qed.

Lemma update_opening_crawl_fields g :
  let g' := update_opening_crawl g in
  (state g' = MENU \/ state g' = state g) /\
  lives g' = lives g /\ score g' = score g /\
  cutscene_triggered g' = cutscene_triggered g /\ trace g' = trace g.
Proof.
  unfold update_opening_crawl. cbv zeta.
  destruct (snd (CrawlOps.update (opening_crawl g)));
    cbn; repeat split; auto.
Qed.

End UpdateGame.

Section Lives.
Import RectOps GameOps Loop.

Lemma handle_event_cases i g g' :
  handle_event i g = Some g' ->
  g' = g \/
  (exists w h, g' = set_screen g (mkScreen w h)) \/
  (state g = MENU /\ g' = start_game (fst (snd i)) (snd (snd i)) g) \/
  (state g = GAME_OVER /\ g' = reset_game g).
Proof.
  unfold handle_event.
  destruct (fst i) as [|w h|button pos|]; intro H.
  - discriminate.
  - right; left. exists w, h. congruence.
  - destruct (button =? 1); [|left; congruence].
    destruct (state g) eqn:Hst;
      try (left; congruence);
      try (right; right; right; split; congruence).
    destruct (start_button_rect g) as [r|]; [|left; congruence].
    destruct (rect_bool r); [|left; congruence].
    destruct (collidepoint r pos); [|left; congruence].
    right; right; left. split; congruence.
  - left. congruence.
Qed.

Lemma lives_ok_init a : lives_ok (init a).
Proof.
  unfold lives_ok. cbn. repeat split; discriminate.
Qed.

Lemma lives_ok_start now ok g : lives_ok (start_game now ok g).
Proof.
  destruct (start_game_fields now ok g) as (E1 & E2 & _).
  unfold lives_ok. rewrite E1, E2. cbn. repeat split; try discriminate.
Qed.

Lemma lives_ok_handle_event i g g' :
  lives_ok g -> handle_event i g = Some g' -> lives_ok g'.
Proof.
  intros Hok H.
  destruct (handle_event_cases _ _ _ H)
    as [-> | [(w & h & ->) | [(_ & ->) | (Hst & ->)]]].
  - exact Hok.
  - exact Hok.
  - apply lives_ok_start.
  - destruct Hok as (H0 & H1 & H2). unfold lives_ok. cbn.
    repeat split; try exact H0; try discriminate.
    intros [E|E]; discriminate E.
Qed.

Lemma lives_ok_handle_events evs : forall g g',
  lives_ok g -> handle_events evs g = Some g' -> lives_ok g'.
Proof.
  induction evs as [|i rest IH]; cbn [handle_events]; intros g g' Hok H.
  - congruence.
  - destruct (handle_event i g) as [g1|] eqn:E; [|discriminate].
    exact (IH _ _ (lives_ok_handle_event _ _ _ Hok E) H).
Qed.

Lemma lives_ok_update_game env g g' :
  lives_ok g -> update_game env g = Some g' -> lives_ok g'.
Proof.
  intros (H0 & H1 & H2) H.
  destruct (update_game_cases _ _ _ H)
    as [(_ & ->) | [(Hp & _ & ->) | (Hp & _ & b & Hb & ->)]].
  - unfold lives_ok; auto.
  - specialize (H1 (or_introl Hp)).
    unfold lives_ok. cbn. repeat split; try lia; intros; try discriminate; lia.
  - specialize (H1 (or_introl Hp)).
    destruct (playing_tick_summary env g b Hb)
      as (_ & _ & _ & _ & _ & Hb7 & Hmiss & Hhit).
    cbv zeta in Hmiss, Hhit.
    destruct (snd (PM.check_collision (projectile_manager b)
                     (rect (player b)) (player b))).
    + destruct (Hhit eq_refl) as (El & Hover & Hlive).
      destruct (Z_le_gt_dec (lives b - 1) 0) as [Hz|Hz].
      * destruct (Hover Hz) as (Es & _).
        unfold lives_ok. rewrite Es, El.
        repeat split; try lia; intros [E|E]; discriminate E.
      * destruct (Hlive ltac:(lia)) as (Es & _).
        unfold lives_ok. rewrite Es, El, Hp.
        repeat split; try lia; discriminate.
    + destruct (Hmiss eq_refl) as (Es & El & _).
      unfold lives_ok. rewrite Es, El, Hp.
      repeat split; try lia; discriminate.
Qed.

Lemma lives_ok_update env g g' :
  lives_ok g -> update env g = Some g' -> lives_ok g'.
Proof.
  intros Hok H. unfold update in H. destruct (state g) eqn:Hst;
    try (injection H as <-; exact Hok).
  - injection H as <-.
    destruct (update_opening_crawl_fields g) as ([E|E] & El & _);
      destruct Hok as (H0 & H1 & H2); unfold lives_ok; rewrite E, El;
      try rewrite Hst; repeat split; try exact H0; try discriminate;
      intros [F|F]; discriminate F.
  - exact (lives_ok_update_game _ _ _ Hok H).
  - injection H as <-.
    destruct (update_cutscene_fields env g) as ([E|E] & El & _);
      destruct Hok as (H0 & H1 & H2); unfold lives_ok; rewrite E, El;
      try rewrite Hst; repeat split; try exact H0; try discriminate;
      intros _; apply H1; right; exact Hst.
Qed.

Lemma lives_ok_draw g : lives_ok g -> lives_ok (draw g).
Proof.
  unfold draw. destruct (state g); trivial.
Qed.

(** A completed loop iteration, step by step. *)
Lemma frame_steps evs env g g' :
  frame evs env g = Some g' ->
  exists g1 g2,
    handle_events evs g = Some g1 /\ update env g1 = Some g2 /\ g' = draw g2.
Proof.
  unfold frame. intro H.
  destruct (handle_events evs g) as [g1|] eqn:E1; [|discriminate].
  destruct (update env g1) as [g2|] eqn:E2; [|discriminate].
  injection H as <-. exists g1, g2. auto.
Qed.

Lemma lives_ok_frame evs env g g' :
  lives_ok g -> frame evs env g = Some g' -> lives_ok g'.
Proof.
  intros Hok H.
  destruct (frame_steps _ _ _ _ H) as (g1 & g2 & E1 & E2 & ->).
  apply lives_ok_draw.
  exact (lives_ok_update _ _ _ (lives_ok_handle_events _ _ _ Hok E1) E2).
Qed.

Lemma reachable_lives_ok a g : reachable a g -> lives_ok g.
Proof.
  induction 1 as [|g evs env g' _ IH Hf].
  - apply lives_ok_init.
  - exact (lives_ok_frame _ _ _ _ IH Hf).
Qed.

Lemma run_reachable a inputs : forall g g',
  reachable a g -> run inputs g = Some g' -> reachable a g'.
Proof.
  induction inputs as [|[evs env] rest IH]; cbn [run]; intros g g' Hr H.
  - congruence.
  - destruct (frame evs env g) as [g1|] eqn:E; [|discriminate].
    exact (IH _ _ (reach_frame _ _ _ _ _ Hr E) H).
Qed.

Lemma game_after_reachable inputs : reachable demo_assets (game_after inputs).
Proof.
  unfold game_after.
  destruct (run inputs (init demo_assets)) as [g|] eqn:E.
  - exact (run_reachable _ _ _ _ (reach_init _) E).
  - apply reach_init.
Qed.

(** C1. In every game the loop can reach, [lives] is never negative, is
    at least 1 in [PLAYING] (and [CUTSCENE]) and is 0 in [GAME_OVER]; and a
    playing tick whose collision check reports a hit (which it only does
    without shield) on the last life ends in [GAME_OVER] within that same
    call of [update_game], with lives 0, after playing the hit sound,
    stopping the music and playing the game-over sound.  ([b] is the game
    as the tick has it when it reaches the collision check; from there on
    nothing can raise, so the call returns.) *)
Theorem lives_and_game_over a g :
  reachable a g ->
  (state g <> GAME_OVER -> 0 <= lives g) /\
  (state g = PLAYING -> 0 < lives g) /\
  (state g = GAME_OVER -> lives g = 0) /\
  (forall env b,
     state g = PLAYING ->
     cutscene_due g = false ->
     before_collisions env g = Some b ->
     snd (PM.check_collision (projectile_manager b) (rect (player b))
                             (player b)) = true ->
     lives b = 1 ->
     shield_active (player b) = false /\
     exists g',
       update_game env g = Some g' /\
       state g' = GAME_OVER /\
       lives g' = 0 /\
       trace g' = trace g ++ [SoundHit; MusicStop; SoundGameOver]).
Proof.
  intro Hr. destruct (reachable_lives_ok _ _ Hr) as (H0 & H1 & H2).
  split; [intros _; exact H0|].
  split; [intro Hp; specialize (H1 (or_introl Hp)); lia|].
  split; [exact H2|].
  intros env b Hp Hdue Hb Hhit Hone.
  rewrite (update_game_playing _ _ Hp), Hdue.
  destruct (playing_tick_summary env g b Hb)
    as (Et & _ & _ & _ & _ & _ & _ & Hh).
  cbv zeta in Hh.
  destruct (Hh Hhit) as (El & Hover & _).
  destruct (Hover ltac:(lia)) as (Es & Etr).
  split.
  - unfold PM.check_collision in Hhit.
    destruct (shield_active (player b)); [discriminate Hhit | reflexivity].
  - exists (from_collisions env b).
    split; [exact Et|]. split; [exact Es|]. split; [lia | exact Etr].
Qed.

Lemma last_life_reachable : reachable demo_assets last_life_game.
Proof. exact (game_after_reachable _). Qed.

Lemma threshold_reachable : reachable demo_assets threshold_game.
Proof. exact (game_after_reachable _). Qed.

Lemma lives_and_game_over_witness :
  let env := demo_env no_keys 22416 340 in
  (state last_life_game, lives last_life_game, cutscene_due last_life_game,
   option_map
     (fun b => (snd (PM.check_collision (projectile_manager b)
                                        (rect (player b)) (player b)),
                lives b))
     (before_collisions env last_life_game))
  = (PLAYING, 1, false, Some (true, 1)) /\
  exists g',
    update_game env last_life_game = Some g' /\
    state g' = GAME_OVER /\
    lives g' = 0 /\
    trace g' = trace last_life_game ++ [SoundHit; MusicStop; SoundGameOver].
Proof.
  intro env.
  assert (E : (state last_life_game, lives last_life_game,
               cutscene_due last_life_game,
               option_map
                 (fun b => (snd (PM.check_collision (projectile_manager b)
                                        (rect (player b)) (player b)),
                            lives b))
                 (before_collisions env last_life_game))
              = (PLAYING, 1, false, Some (true, 1)))
    by (vm_compute; reflexivity).
  split; [exact E|].
  revert E.
  generalize last_life_reachable.
  generalize last_life_game as g. intros g Hr E.
  injection E as Hp Hl Hdue Hb.
  destruct (before_collisions env g) as [b|] eqn:Eb; [|discriminate Hb].
  cbn [option_map] in Hb. injection Hb as Hhit Hone.
  destruct (lives_and_game_over demo_assets g Hr) as (_ & _ & _ & H).
  destruct (H env b Hp Hdue Eb Hhit Hone) as (_ & Hex).
  exact Hex.
Defined.

End Lives.

Section Sessions.
Import RectOps GameOps Loop.

Lemma cutscene_starts_app t1 t2 :
  cutscene_starts (t1 ++ t2) = (cutscene_starts t1 + cutscene_starts t2)%nat.
Proof. unfold cutscene_starts. rewrite filter_app, length_app. reflexivity. Qed.

(** Inside a session the event loop can only resize the window. *)
Lemma handle_events_in_session evs : forall g g1,
  state g = PLAYING \/ state g = CUTSCENE ->
  handle_events evs g = Some g1 ->
  summary g1 = summary g.
Proof.
  induction evs as [|i rest IH]; cbn [handle_events]; intros g g1 Hst H.
  - congruence.
  - destruct (handle_event i g) as [g'|] eqn:E; [|discriminate].
    assert (Hs : summary g' = summary g).
    { destruct (handle_event_cases _ _ _ E)
        as [-> | [(w & h & ->) | [(Hm & _) | (Hm & _)]]];
        try reflexivity; destruct Hst as [F|F]; congruence. }
    rewrite <- Hs. apply IH; [|exact H].
    unfold summary in Hs. injection Hs as Es _ _ _ _. rewrite Es. exact Hst.
Qed.

Lemma session_ok_summary c0 g g' :
  summary g' = summary g -> session_ok c0 g -> session_ok c0 g'.
Proof.
  unfold summary, session_ok. intros E H.
  injection E as _ _ -> -> ->. exact H.
Qed.

Lemma session_ok_start now ok g0 :
  session_ok (cutscene_starts (trace g0)) (start_game now ok g0).
Proof.
  destruct (start_game_fields now ok g0)
    as (_ & _ & Esc & Efl & _ & _ & _ & _ & _ & Etr).
  unfold session_ok. rewrite Esc, Efl, Etr, cutscene_starts_app.
  repeat split; try discriminate.
  destruct ok; reflexivity.
Qed.

Lemma session_ok_update_game c0 env g g' :
  session_ok c0 g -> update_game env g = Some g' -> session_ok c0 g'.
Proof.
  intros (Hc & Hlow & Hhigh) H.
  destruct (update_game_cases _ _ _ H)
    as [(_ & ->) | [(Hp & Hdue & ->) | (Hp & Hdue & b & Hb & ->)]].
  - unfold session_ok; auto.
  - unfold cutscene_due in Hdue. apply andb_true_iff in Hdue as (Hf & Hs).
    apply negb_true_iff in Hf. rewrite Z.geb_leb in Hs. apply Z.leb_le in Hs.
    destruct (trigger_cutscene_fields env g)
      as (_ & Efl & _ & _ & _ & _ & Etr & Esc & _).
    unfold session_ok. rewrite Efl, Etr, Esc, cutscene_starts_app, Hc, Hf.
    repeat split; try discriminate; [cbn; lia | intros _; exact Hs].
  - destruct (playing_tick_summary env g b Hb)
      as (_ & Esc & Efl & _ & _ & _ & Hmiss & Hhit).
    cbv zeta in Hmiss, Hhit.
    assert (Ht : cutscene_starts (trace (from_collisions env b))
                 = cutscene_starts (trace g)).
    { destruct (snd (PM.check_collision (projectile_manager b)
                       (rect (player b)) (player b))).
      - destruct (Hhit eq_refl) as (_ & Hover & Hlive).
        destruct (Z_le_gt_dec (lives b - 1) 0) as [Hz|Hz].
        + destruct (Hover Hz) as (_ & ->).
          rewrite cutscene_starts_app. cbn. lia.
        + destruct (Hlive ltac:(lia)) as (_ & ->).
          rewrite cutscene_starts_app. cbn. lia.
      - destruct (Hmiss eq_refl) as (_ & _ & ->). reflexivity. }
    unfold session_ok. rewrite Ht, Efl, Esc.
    repeat split; try exact Hc.
    + intro Hf. unfold cutscene_due in Hdue. rewrite Hf in Hdue.
      cbn in Hdue. rewrite Z.geb_leb in Hdue. apply Z.leb_gt in Hdue.
      unfold Config.CUTSCENE_TRIGGER_SCORE in *. lia.
    + intro Hf. specialize (Hhigh Hf). lia.
Qed.

Lemma session_ok_frame c0 evs env g g' :
  state g = PLAYING \/ state g = CUTSCENE ->
  session_ok c0 g -> frame evs env g = Some g' -> session_ok c0 g'.
Proof.
  intros Hst Hok H.
  destruct (frame_steps _ _ _ _ H) as (g1 & g2 & E & E2 & ->).
  pose proof (handle_events_in_session _ _ _ Hst E) as Hs.
  assert (Hok1 : session_ok c0 g1) by exact (session_ok_summary _ _ _ Hs Hok).
  assert (Hu : session_ok c0 g2).
  { unfold update in E2. destruct (state g1);
      try (injection E2 as <-; exact Hok1).
    - injection E2 as <-.
      destruct (update_opening_crawl_fields g1) as (_ & _ & E2 & E3 & E4).
      destruct Hok1 as (A & B & C). unfold session_ok.
      rewrite E2, E3, E4. auto.
    - exact (session_ok_update_game _ _ _ _ Hok1 E2).
    - injection E2 as <-.
      destruct (update_cutscene_fields env g1) as (_ & _ & E2 & E3 & E4).
      destruct Hok1 as (A & B & C). unfold session_ok.
      rewrite E2, E3, E4. auto. }
  unfold draw. destruct (state g2); exact Hu.
Qed.

Lemma in_session_ok s0 g :
  in_session s0 g ->
  forall c0, session_ok c0 s0 -> session_ok c0 g.
Proof.
  induction 1 as [|g evs env g' _ IH Hst Hf]; intros c0 H0.
  - exact H0.
  - exact (session_ok_frame _ _ _ _ _ Hst (IH _ H0) Hf).
Qed.

Lemma session_run_in_session s0 inputs : forall g g',
  in_session s0 g -> session_run inputs g = Some g' -> in_session s0 g'.
Proof.
  induction inputs as [|[evs env] rest IH]; cbn [session_run]; intros g g' Hs H.
  - congruence.
  - destruct (state g) eqn:Hst; try discriminate;
      (destruct (frame evs env g) as [g1|] eqn:E; [|discriminate]);
      apply (IH g1); trivial;
      apply (session_frame s0 g evs env g1); auto.
Qed.

Lemma session_after_in_session s inputs : in_session s (session_after s inputs).
Proof.
  unfold session_after.
  destruct (session_run inputs s) as [g|] eqn:E.
  - exact (session_run_in_session _ _ _ _ (session_start _) E).
  - apply session_start.
Qed.

Lemma first_session_end_in_session :
  in_session (start_game 20816 true menu_game) first_session_end.
Proof. exact (session_after_in_session _ _). Qed.

Lemma second_session_end_in_session :
  in_session (start_game 45648 true back_in_menu) second_session_end.
Proof. exact (session_after_in_session _ _). Qed.

End Sessions.

Section SessionClaims.
Import RectOps GameOps Loop.

Lemma trigger_tick env g :
  state g = PLAYING ->
  cutscene_triggered g = false ->
  Config.CUTSCENE_TRIGGER_SCORE <= score g ->
  update_game env g = Some (trigger_cutscene env g).
Proof.
  intros Hp Hf Hs. rewrite (update_game_playing _ _ Hp).
  unfold cutscene_due. rewrite Hf, Z.geb_leb, (proj2 (Z.leb_le _ _) Hs).
  reflexivity.
Qed.

(** C4. Throughout a session (from [start_game] on, while iterations begin
    in [PLAYING] or [CUTSCENE]) the number of [Cutscene.start] calls made
    since the session began is 0 as long as the one-shot flag is clear and
    exactly 1 once it is set; the flag is clear only up to score 1000 and
    set only from score 1000 on.  The playing tick that finds the flag
    clear and the score at the threshold returns in [CUTSCENE], having
    frozen the player, disabled the projectile manager and called
    [Cutscene.start]; once the flag is set no call of [update_game] adds
    another start. *)
Theorem cutscene_starts_once now ok g0 g :
  in_session (start_game now ok g0) g ->
  cutscene_starts (trace g)
  = (cutscene_starts (trace g0)
     + (if cutscene_triggered g then 1 else 0))%nat /\
  (cutscene_triggered g = false -> score g <= 1000) /\
  (cutscene_triggered g = true -> 1000 <= score g) /\
  (forall env,
     state g = PLAYING -> cutscene_triggered g = false -> 1000 <= score g ->
     exists g',
       update_game env g = Some g' /\
       state g' = CUTSCENE /\
       cutscene_triggered g' = true /\
       frozen (player g') = true /\
       pm_active (projectile_manager g') = false /\
       cs_active (cutscene g') = true /\
       trace g' = trace g ++ [CutsceneStart]) /\
  (forall env g',
     cutscene_triggered g = true ->
     update_game env g = Some g' ->
     cutscene_triggered g' = true /\
     cutscene_starts (trace g') = cutscene_starts (trace g)).
Proof.
  intro Hs.
  pose proof (in_session_ok _ _ Hs _ (session_ok_start now ok g0)) as Hok.
  destruct Hok as (Hc & Hlow & Hhigh).
  split; [exact Hc|]. split; [exact Hlow|]. split; [exact Hhigh|]. split.
  - intros env Hp Hf Hsc. exists (trigger_cutscene env g).
    split; [exact (trigger_tick env g Hp Hf Hsc)|].
    destruct (trigger_cutscene_fields env g)
      as (E1 & E2 & E3 & E4 & E5 & _ & E7 & _).
    repeat split; assumption.
  - intros env g' Hf H.
    destruct (session_ok_update_game _ env g g' (conj Hc (conj Hlow Hhigh)) H)
      as (Hc' & Hlow' & _).
    assert (Hf' : cutscene_triggered g' = true).
    { destruct (update_game_cases _ _ _ H)
        as [(_ & ->) | [(_ & _ & ->) | (_ & _ & b & Hb & ->)]].
      - exact Hf.
      - reflexivity.
      - destruct (playing_tick_summary env g b Hb) as (_ & _ & Efl & _).
        rewrite Efl. exact Hf. }
    split; [exact Hf'|]. rewrite Hc', Hc, Hf, Hf'. reflexivity.
Qed.

Lemma cutscene_starts_once_witness :
  (state first_session_end, score first_session_end,
   cutscene_triggered first_session_end, cutscene_starts (trace menu_game))
  = (PLAYING, 1023, true, 0%nat) /\
  cutscene_starts (trace first_session_end) = 1%nat.
Proof.
  assert (E : (state first_session_end, score first_session_end,
               cutscene_triggered first_session_end,
               cutscene_starts (trace menu_game))
              = (PLAYING, 1023, true, 0%nat))
    by (vm_compute; reflexivity).
  split; [exact E|].
  revert E. generalize first_session_end_in_session.
  generalize first_session_end as g. generalize menu_game as m.
  intros m g Hs E. injection E as _ _ Hf Hm.
  destruct (cutscene_starts_once 20816 true m g Hs) as (Hc & _).
  rewrite Hc, Hf, Hm. reflexivity.
Defined.

(** C5, as the code has it.  A call of [update_game] that begins in
    [PLAYING] and takes the cutscene branch returns before the increment
    and leaves the score as it was.  Any other call that begins in
    [PLAYING] and returns ends with the score one higher, whatever else the
    tick brings (a hit, a collected power-up, the change to [GAME_OVER]).
    Such a call raises, and so never reaches the increment, exactly when
    the projectile manager fires in a window less than 10 high or the
    power-up spawn test succeeds in a window less than 100 wide or high;
    in a window of at least 100 x 100 it always returns. *)
Theorem score_increment_unless_trigger env g :
  state g = PLAYING ->
  (cutscene_due g = false ->
   (forall g', update_game env g = Some g' -> score g' = score g + 1) /\
   (update_game env g = None <-> tick_raises env g = true) /\
   (100 <= SCREEN_WIDTH (screen g) -> 100 <= SCREEN_HEIGHT (screen g) ->
    exists g', update_game env g = Some g' /\ score g' = score g + 1)) /\
  (cutscene_due g = true ->
   exists g',
     update_game env g = Some g' /\ score g' = score g /\ state g' = CUTSCENE).
Proof.
  intro Hp. rewrite (update_game_playing _ _ Hp). split; intros ->.
  - assert (A : forall g', playing_tick env g = Some g' ->
                           score g' = score g + 1).
    { intros g' H. unfold playing_tick in H.
      destruct (before_collisions env g) as [b|] eqn:Hb; [|discriminate].
      injection H as <-.
      destruct (playing_tick_summary env g b Hb) as (_ & E & _). exact E. }
    split; [exact A|]. split.
    + rewrite <- before_collisions_raises. unfold playing_tick.
      destruct (before_collisions env g); split; congruence.
    + intros Hw Hh.
      destruct (before_collisions_returns env g Hw Hh) as (b & Hb).
      destruct (playing_tick_summary env g b Hb) as (Et & _).
      exists (from_collisions env b). split; [exact Et | exact (A _ Et)].
  - exists (trigger_cutscene env g). repeat split.
Qed.

Lemma score_increment_unless_trigger_witness :
  (state last_life_game, cutscene_due last_life_game, score last_life_game,
   SCREEN_WIDTH (screen last_life_game), SCREEN_HEIGHT (screen last_life_game))
  = (PLAYING, false, 100, 900, 700) /\
  (exists g',
     update_game (demo_env no_keys 22416 340) last_life_game = Some g' /\
     score g' = 101) /\
  (state narrow_game, cutscene_due narrow_game, score narrow_game,
   screen narrow_game)
  = (PLAYING, false, 0, mkScreen 300 80) /\
  update_game (spawning_env 16) narrow_game = None.
Proof.
  assert (E : (state last_life_game, cutscene_due last_life_game,
               score last_life_game, SCREEN_WIDTH (screen last_life_game),
               SCREEN_HEIGHT (screen last_life_game))
              = (PLAYING, false, 100, 900, 700))
    by (vm_compute; reflexivity).
  split; [exact E|]. split.
  - revert E. generalize last_life_game as g. intros g E.
    injection E as Hp Hdue Hsc Hw Hh.
    destruct (score_increment_unless_trigger
                (demo_env no_keys 22416 340) g Hp) as (H & _).
    destruct (H Hdue) as (_ & _ & Hret).
    destruct Hret as (g' & Eg & Es); [lia | lia |].
    exists g'. split; [exact Eg | lia].
  - split; [reflexivity|].
    destruct (score_increment_unless_trigger (spawning_env 16) narrow_game
                eq_refl) as (H & _).
    destruct (H eq_refl) as (_ & Hr & _). apply Hr. reflexivity.
Defined.

(** C5 as stated fails: a reachable game in [PLAYING] with score 1000 and
    the one-shot flag clear; [update_game] returns with the score still at
    1000. *)
Lemma score_unchanged_on_trigger_tick :
  (state threshold_game, score threshold_game,
   cutscene_triggered threshold_game,
   option_map (fun g' => (score g', state g'))
              (update_game (demo_env no_keys 36816 0) threshold_game))
  = (PLAYING, 1000, false, Some (1000, CUTSCENE)).
Proof. vm_compute. reflexivity. Qed.

(** C10. [start_game] puts the game in [PLAYING] with 3 lives, score 0,
    the one-shot flag clear, no projectiles, no power-ups and no particles.
    In the session that follows, while the flag is clear no further
    [Cutscene.start] has been called and the score is at most 1000; a
    playing tick that does not take the cutscene branch and returns has
    raised the score by one; the playing tick that finds the score at the
    threshold returns in [CUTSCENE], having called [Cutscene.start]; and
    once the flag is set exactly one start has been added to those of
    earlier games. *)
Theorem start_game_rearms_cutscene now ok g0 :
  let s := start_game now ok g0 in
  (state s = PLAYING /\ lives s = 3 /\ score s = 0 /\
   cutscene_triggered s = false /\
   projectiles (projectile_manager s) = [] /\
   powerups s = [] /\ particle_system s = []) /\
  (forall g,
     in_session s g ->
     (cutscene_triggered g = false ->
      cutscene_starts (trace g) = cutscene_starts (trace g0) /\
      score g <= 1000) /\
     (forall env g',
        state g = PLAYING -> cutscene_due g = false ->
        update_game env g = Some g' ->
        score g' = score g + 1) /\
     (forall env,
        state g = PLAYING -> cutscene_triggered g = false -> 1000 <= score g ->
        exists g',
          update_game env g = Some g' /\
          state g' = CUTSCENE /\
          cutscene_triggered g' = true /\
          trace g' = trace g ++ [CutsceneStart]) /\
     (cutscene_triggered g = true ->
      cutscene_starts (trace g) = S (cutscene_starts (trace g0)))).
Proof.
  intro s. subst s. split.
  - destruct (start_game_fields now ok g0)
      as (E1 & E2 & E3 & E4 & _ & E6 & _ & E8 & E9 & _).
    repeat split; assumption.
  - intros g Hs.
    pose proof (in_session_ok _ _ Hs _ (session_ok_start now ok g0))
      as (Hc & Hlow & Hhigh).
    split; [|split; [|split]].
    + intro Hf. rewrite Hf in Hc. split; [lia | exact (Hlow Hf)].
    + intros env g' Hp Hdue H.
      destruct (update_game_cases _ _ _ H)
        as [(Hn & _) | [(_ & Hd & _) | (_ & _ & b & Hb & ->)]];
        [contradiction | congruence |].
      destruct (playing_tick_summary env g b Hb) as (_ & E & _). exact E.
    + intros env Hp Hf Hsc. exists (trigger_cutscene env g).
      split; [exact (trigger_tick env g Hp Hf Hsc)|].
      destruct (trigger_cutscene_fields env g)
        as (E1 & E2 & _ & _ & _ & _ & E7 & _).
      repeat split; assumption.
    + intro Hf. rewrite Hf in Hc. lia.
Qed.

Lemma start_game_rearms_cutscene_witness :
  (state back_in_menu, cutscene_triggered back_in_menu,
   cutscene_starts (trace back_in_menu),
   cutscene_triggered second_session_end)
  = (MENU, true, 1%nat, true) /\
  cutscene_triggered (start_game 45648 true back_in_menu) = false /\
  cutscene_starts (trace second_session_end) = 2%nat.
Proof.
  assert (E : (state back_in_menu, cutscene_triggered back_in_menu,
               cutscene_starts (trace back_in_menu),
               cutscene_triggered second_session_end)
              = (MENU, true, 1%nat, true))
    by (vm_compute; reflexivity).
  split; [exact E|].
  revert E. generalize second_session_end_in_session.
  generalize second_session_end as g. generalize back_in_menu as m.
  intros m g Hs E. injection E as _ _ Hm Hf.
  destruct (start_game_rearms_cutscene 45648 true m)
    as ((_ & _ & _ & Hclear & _) & H).
  split; [exact Hclear|].
  destruct (H g Hs) as (_ & _ & _ & Hset).
  rewrite (Hset Hf), Hm. reflexivity.
Defined.

End SessionClaims.

(** ** Further properties of the code *)

Section PlayerMotion.
Import RectOps GameOps.

Lemma move_inside sc p keys :
  frozen p = false ->
  rw (rect p) < SCREEN_WIDTH sc -> rh (rect p) < SCREEN_HEIGHT sc ->
  inside (rect (PlayerOps.move sc p keys)) (screen_rect sc) /\
  rw (rect (PlayerOps.move sc p keys)) = rw (rect p) /\
  rh (rect (PlayerOps.move sc p keys)) = rh (rect p).
Proof.
  intros Hf Hw Hh. unfold PlayerOps.move. rewrite Hf.
  cbn [PlayerOps.set_rect rect].
  match goal with
  | |- context [clamp_ip ?r ?b] =>
      assert (Ew : rw r = rw (rect p)) by (break_ifs; reflexivity);
      assert (Eh : rh r = rh (rect p)) by (break_ifs; reflexivity);
      destruct (clamp_ip_inside r b) as (A & B & C);
      [rewrite Ew; exact Hw | rewrite Eh; exact Hh |];
      rewrite B, C, Ew, Eh; auto
  end.
Qed.

Lemma dash_inside sc p keys now :
  rw (rect p) < SCREEN_WIDTH sc -> rh (rect p) < SCREEN_HEIGHT sc ->
  inside (rect p) (screen_rect sc) ->
  inside (rect (fst (PlayerOps.dash sc p keys now))) (screen_rect sc) /\
  rw (rect (fst (PlayerOps.dash sc p keys now))) = rw (rect p) /\
  rh (rect (fst (PlayerOps.dash sc p keys now))) = rh (rect p).
Proof.
  intros Hw Hh Hin. unfold PlayerOps.dash.
  destruct ((now - last_dash_time p >? Config.DASH_COOLDOWN)
            && (K_SPACE keys || K_LSHIFT keys)); cbn [fst rect]; [|auto].
  match goal with
  | |- context [clamp_ip ?r ?b] =>
      destruct (clamp_ip_inside r b) as (A & B & C); auto
  end.
Qed.

Lemma collect_player_frame env pus : forall i g,
  rect (player (collect env i pus g)) = rect (player g) /\
  frozen (player (collect env i pus g)) = frozen (player g) /\
  projectile_manager (collect env i pus g) = projectile_manager g /\
  screen_shake (collect env i pus g) = screen_shake g.
Proof.
  induction pus as [|pu rest IH]; intros i g; cbn [collect].
  - cbn. auto.
  - destruct (colliderect (pu_rect pu) (rect (player g))).
    + match goal with
      | |- context [collect env (S i) rest ?X] =>
          destruct (IH (S i) X) as (E1 & E2 & E3 & E4);
          rewrite E1, E2, E3, E4
      end.
      destruct (pu_type pu); cbn; auto.
    + destruct (IH (S i) g) as (E1 & E2 & E3 & E4). cbn. auto.
Qed.

Lemma before_projectiles_player_rect env g :
  rect (player (before_projectiles env g))
  = rect (fst (PlayerOps.dash (screen g)
                 (PlayerOps.move (screen g) (player g) (keys env))
                 (keys env) (t_dash env))).
Proof.
  unfold before_projectiles, handle_dash, handle_input.
  break_ifs; reflexivity.
Qed.

Lemma before_collisions_player_rect env g b :
  before_collisions env g = Some b ->
  rect (player b) = rect (player (before_projectiles env g)).
Proof.
  intro H. destruct (before_collisions_steps _ _ _ H) as (pm & g1 & _ & E1 & ->).
  destruct (spawn_powerup_frame _ _ _ E1)
    as (_ & _ & _ & _ & _ & _ & _ & Ep & _).
  unfold collect_powerups.
  destruct (collect_player_frame env (powerups g1) 0 g1) as (E & _).
  rewrite E, Ep. reflexivity.
Qed.

Lemma from_collisions_player_rect env b :
  rect (player (from_collisions env b)) = rect (player b).
Proof.
  unfold from_collisions, update_screen_shake, check_collisions. cbv zeta.
  break_ifs; reflexivity.
Qed.

(** X1. A playing tick that is not the cutscene trigger leaves an
    unfrozen player that is smaller than the window inside the window,
    with its size unchanged, whatever keys are held and wherever the player
    was before (for instance outside, after the window was made smaller).
    The rect is written by the move and the dash at the start of the tick
    and by nothing after them, so this holds of the game the tick returns
    and also of the player as it stands when a later step of the tick
    raises. *)
Theorem player_stays_on_screen env g :
  state g = PLAYING ->
  cutscene_due g = false ->
  frozen (player g) = false ->
  rw (rect (player g)) < SCREEN_WIDTH (screen g) ->
  rh (rect (player g)) < SCREEN_HEIGHT (screen g) ->
  (forall g',
     update_game env g = Some g' ->
     let r := rect (player g') in
     inside r (screen_rect (screen g)) /\
     rw r = rw (rect (player g)) /\ rh r = rh (rect (player g))) /\
  (let r := rect (player (before_projectiles env g)) in
   inside r (screen_rect (screen g)) /\
   rw r = rw (rect (player g)) /\ rh r = rh (rect (player g))) /\
  (100 <= SCREEN_WIDTH (screen g) -> 100 <= SCREEN_HEIGHT (screen g) ->
   exists g', update_game env g = Some g').
Proof.
  intros Hp Hdue Hf Hw Hh.
  assert (A : let r := rect (player (before_projectiles env g)) in
              inside r (screen_rect (screen g)) /\
              rw r = rw (rect (player g)) /\ rh r = rh (rect (player g))).
  { cbv zeta. rewrite before_projectiles_player_rect.
    destruct (move_inside (screen g) (player g) (keys env) Hf Hw Hh)
      as (A & B & C).
    destruct (dash_inside (screen g)
                (PlayerOps.move (screen g) (player g) (keys env))
                (keys env) (t_dash env)) as (A' & B' & C');
      [rewrite B; exact Hw | rewrite C; exact Hh | exact A |].
    rewrite B', C', B, C. auto. }
  split; [|split; [exact A|]].
  - intros g' H.
    destruct (update_game_cases _ _ _ H)
      as [(Hn & _) | [(_ & Hd & _) | (_ & _ & b & Hb & ->)]];
      [contradiction | congruence |].
    cbv zeta.
    rewrite from_collisions_player_rect, (before_collisions_player_rect _ _ _ Hb).
    exact A.
  - intros W100 H100. apply update_game_returns; assumption.
Qed.

Lemma player_stays_on_screen_witness :
  let g := set_screen (start_game 0 true (init demo_assets)) (mkScreen 300 200) in
  let env := demo_env (mkKeys true false false false false false false false
                              true false) 5000 0 in
  rect (player g) = mkRect 434 334 32 32 /\
  option_map (fun g' => rect (player g')) (update_game env g)
  = Some (mkRect 188 168 32 32) /\
  inside (rect (player (before_projectiles env g))) (screen_rect (screen g)).
Proof.
  intros g env. split; [reflexivity|]. split; [vm_compute; reflexivity|].
  destruct (player_stays_on_screen env g) as (_ & (H & _) & _);
    try reflexivity.
  exact H.
Defined.

Lemma dash_direction_offset keys :
  (trunc (fst (PlayerOps.dash_direction keys) * inject_Z Config.DASH_DISTANCE),
   trunc (snd (PlayerOps.dash_direction keys) * inject_Z Config.DASH_DISTANCE))
  = dash_offset keys.
Proof.
  destruct keys as [a d w s l r u dn sp sh].
  destruct a, d, w, s, l, r, u, dn; vm_compute; reflexivity.
Qed.

(** X2. Whenever a dash fires (cooldown elapsed and a dash key held), the
    rect is shifted by the offset the held direction keys select (80 along
    an axis, 56 on each axis of a diagonal, right and down winning over
    left and up, rightward when no direction is held) and then clamped to
    the window, which leaves a player smaller than the window inside the
    window with its size unchanged; the dash never leaves the player in
    place before clamping. *)
Theorem dash_moves_by_offset sc p keys now :
  now - last_dash_time p > Config.DASH_COOLDOWN ->
  K_SPACE keys || K_LSHIFT keys = true ->
  snd (PlayerOps.dash sc p keys now) = true /\
  rect (fst (PlayerOps.dash sc p keys now))
  = clamp_ip (mkRect (rx (rect p) + fst (dash_offset keys))
                     (ry (rect p) + snd (dash_offset keys))
                     (rw (rect p)) (rh (rect p)))
             (screen_rect sc) /\
  dash_offset keys <> (0, 0) /\
  Z.abs (fst (dash_offset keys)) <= 80 /\ Z.abs (snd (dash_offset keys)) <= 80 /\
  (rw (rect p) < SCREEN_WIDTH sc -> rh (rect p) < SCREEN_HEIGHT sc ->
   inside (rect (fst (PlayerOps.dash sc p keys now))) (screen_rect sc) /\
   rw (rect (fst (PlayerOps.dash sc p keys now))) = rw (rect p) /\
   rh (rect (fst (PlayerOps.dash sc p keys now))) = rh (rect p)) /\
  (rw (rect p) < SCREEN_WIDTH sc -> rh (rect p) < SCREEN_HEIGHT sc ->
   0 <= rx (rect p) + fst (dash_offset keys) ->
   0 <= ry (rect p) + snd (dash_offset keys) ->
   rx (rect (fst (PlayerOps.dash sc p keys now)))
   = Z.min (rx (rect p) + fst (dash_offset keys))
           (SCREEN_WIDTH sc - rw (rect p)) /\
   ry (rect (fst (PlayerOps.dash sc p keys now)))
   = Z.min (ry (rect p) + snd (dash_offset keys))
           (SCREEN_HEIGHT sc - rh (rect p))).
Proof.
  intros Hcd Hkey. unfold PlayerOps.dash.
  rewrite (proj2 (Z.gtb_lt _ _) (Z.gt_lt _ _ Hcd)), Hkey.
  cbn [andb fst snd rect].
  pose proof (f_equal fst (dash_direction_offset keys)) as E1.
  pose proof (f_equal snd (dash_direction_offset keys)) as E2.
  cbn [fst snd] in E1, E2. rewrite E1. unfold set_y at 1. unfold set_x.
  cbn [rx ry rw rh]. rewrite E2.
  split; [reflexivity|]. split; [reflexivity|].
  split; [|split; [|split; [|split]]].
  - destruct keys as [a d w s l r u dn sp sh].
    destruct a, d, w, s, l, r, u, dn; vm_compute; discriminate.
  - destruct keys as [a d w s l r u dn sp sh].
    destruct a, d, w, s, l, r, u, dn; vm_compute; discriminate.
  - destruct keys as [a d w s l r u dn sp sh].
    destruct a, d, w, s, l, r, u, dn; vm_compute; discriminate.
  - intros Hw Hh.
    exact (clamp_ip_inside
             (mkRect (rx (rect p) + fst (dash_offset keys))
                     (ry (rect p) + snd (dash_offset keys))
                     (rw (rect p)) (rh (rect p)))
             (screen_rect sc) Hw Hh).
  - intros Hw Hh Hx Hy. unfold clamp_ip, screen_rect, set_y.
    cbn [rx ry rw rh].
    rewrite (clamp_axis_min _ _ _ _ Hw Hx), (clamp_axis_min _ _ _ _ Hh Hy).
    split; reflexivity.
Qed.

Lemma dash_moves_by_offset_witness :
  rect (fst (PlayerOps.dash demo_screen demo_player
               (mkKeys true false true false false false false false true false)
               2000))
  = mkRect 378 278 32 32 /\
  rx (rect (fst (PlayerOps.dash demo_screen far_right_player
                   (mkKeys false true false true false false false false
                           true false)
                   2000)))
  = 868.
Proof.
  split.
  - destruct (dash_moves_by_offset demo_screen demo_player
                (mkKeys true false true false false false false false true false)
                2000) as (_ & E & _).
    + vm_compute. reflexivity.
    + reflexivity.
    + rewrite E. reflexivity.
  - destruct (dash_moves_by_offset demo_screen far_right_player
                (mkKeys false true false true false false false false true
                        false)
                2000) as (_ & _ & _ & _ & _ & _ & H).
    + vm_compute. reflexivity.
    + reflexivity.
    + specialize (H ltac:(cbn; lia) ltac:(cbn; lia) ltac:(cbn; lia)
                    ltac:(cbn; lia)).
      destruct H as (Ex & _). rewrite Ex. reflexivity.
Defined.

End PlayerMotion.
Section PlayerTimers.

Lemma decay_trail_eq t :
  PlayerOps.decay_trail t
  = map (fun e => (fst e, snd e - 30)) (filter (fun e => snd e >? 0) t).
Proof. destruct t; reflexivity. Qed.

Lemma decay_trail_bound t k :
  Forall (fun e : TrailPoint => snd e <= 30 * Z.of_nat (S k)) t ->
  Forall (fun e : TrailPoint => snd e <= 30 * Z.of_nat k) (PlayerOps.decay_trail t).
Proof.
  intro H. rewrite decay_trail_eq. apply Forall_forall. intros e He.
  apply in_map_iff in He as (e0 & <- & He0).
  apply filter_In in He0 as (Hin & _).
  rewrite Forall_forall in H. specialize (H e0 Hin). cbn [snd]. lia.
Qed.

Lemma decay_trail_spent t :
  Forall (fun e : TrailPoint => snd e <= 0) t -> PlayerOps.decay_trail t = [].
Proof.
  intro H. rewrite decay_trail_eq.
  induction H as [|e rest He _ IH]; cbn [filter map]; [reflexivity|].
  rewrite Z.gtb_ltb, (proj2 (Z.ltb_ge _ _) He). exact IH.
Qed.

Lemma trail_fades times : forall p k,
  length times = S k ->
  Forall (fun e : TrailPoint => snd e <= 30 * Z.of_nat k) (dash_trail p) ->
  dash_trail (player_updates p times) = [].
Proof.
  induction times as [|t rest IH]; intros p k Hl Hf; [discriminate|].
  cbn [player_updates fold_left]. destruct k as [|k].
  - destruct rest; [|discriminate]. cbn.
    apply decay_trail_spent. exact Hf.
  - apply (IH _ k); [cbn in Hl; lia|].
    cbn [PlayerOps.update dash_trail]. apply decay_trail_bound. exact Hf.
Qed.

(** X3. The trail a dash leaves (from an empty trail) is fully gone after
    six calls of [Player.update], whatever the clock reads, and not
    before: after five calls one point (with alpha 0) is still stored. *)
Theorem dash_trail_fades_out sc p keys now times :
  dash_trail p = [] ->
  snd (PlayerOps.dash sc p keys now) = true ->
  let p' := fst (PlayerOps.dash sc p keys now) in
  (length times = 6%nat -> dash_trail (player_updates p' times) = []) /\
  (length times = 5%nat ->
   map snd (dash_trail (player_updates p' times)) = [0]).
Proof.
  intros Ht Hd p'. subst p'. unfold PlayerOps.dash in *.
  destruct ((now - last_dash_time p >? Config.DASH_COOLDOWN)
            && (K_SPACE keys || K_LSHIFT keys)); [|discriminate Hd].
  cbn [fst]. rewrite Ht. cbn [app]. split; intro Hl.
  - apply (trail_fades times _ 5 Hl). cbn [dash_trail map].
    repeat constructor; cbn; lia.
  - destruct times as [|t1 [|t2 [|t3 [|t4 [|t5 [|]]]]]]; try discriminate Hl.
    reflexivity.
Qed.

Lemma dash_trail_fades_out_witness :
  length (dash_trail (fst (PlayerOps.dash demo_screen demo_player space_only 2000)))
  = 5%nat /\
  dash_trail (player_updates
                (fst (PlayerOps.dash demo_screen demo_player space_only 2000))
                [2016; 2032; 2048; 2064; 2080; 2096]) = [].
Proof.
  split; [reflexivity|].
  apply (dash_trail_fades_out demo_screen demo_player space_only 2000
           [2016; 2032; 2048; 2064; 2080; 2096]); reflexivity.
Defined.

Lemma update_animation p now :
  frozen p = false ->
  (frame_counter p + 1 < Config.PLAYER_FRAME_DELAY ->
   current_frame (PlayerOps.update p now) = current_frame p /\
   frame_counter (PlayerOps.update p now) = frame_counter p + 1) /\
  (Config.PLAYER_FRAME_DELAY <= frame_counter p + 1 ->
   current_frame (PlayerOps.update p now) = (current_frame p + 1) mod n_frames p /\
   frame_counter (PlayerOps.update p now) = 0).
Proof.
  intro Hf. cbn [PlayerOps.update current_frame frame_counter].
  unfold PlayerOps.advance_frame. rewrite Hf, Z.geb_leb.
  split; intro H.
  - rewrite (proj2 (Z.leb_gt _ _) H). auto.
  - rewrite (proj2 (Z.leb_le _ _) H). auto.
Qed.

(** X4. [Player.update] keeps the animation state in range: with at least
    one frame, an index within [0, n_frames) and a counter within [0, 5)
    stay so; a frozen player's animation does not move; and an unfrozen
    player whose counter is 0 shows the next frame (cyclically) after
    exactly five updates, the counter being 0 again. *)
Theorem animation_frame_cycle p now :
  0 < n_frames p ->
  0 <= current_frame p < n_frames p ->
  0 <= frame_counter p < Config.PLAYER_FRAME_DELAY ->
  let p' := PlayerOps.update p now in
  (n_frames p' = n_frames p /\
   0 <= current_frame p' < n_frames p' /\
   0 <= frame_counter p' < Config.PLAYER_FRAME_DELAY) /\
  (frozen p = true ->
   current_frame p' = current_frame p /\ frame_counter p' = frame_counter p) /\
  (forall times,
     frozen p = false -> frame_counter p = 0 -> length times = 5%nat ->
     current_frame (player_updates p times) = (current_frame p + 1) mod n_frames p /\
     frame_counter (player_updates p times) = 0 /\
     forall k, (0 < k < 5)%nat ->
       current_frame (player_updates p (firstn k times)) = current_frame p).
Proof.
  intros Hn Hc Hfc p'. subst p'. split; [|split].
  - cbn [PlayerOps.update n_frames current_frame frame_counter].
    unfold PlayerOps.advance_frame.
    destruct (frozen p); cbn [fst snd]; [auto|].
    destruct (frame_counter p + 1 >=? Config.PLAYER_FRAME_DELAY) eqn:E;
      cbn [fst snd].
    + split; [reflexivity|]. split; [apply Z.mod_pos_bound; exact Hn|].
      unfold Config.PLAYER_FRAME_DELAY. lia.
    + rewrite Z.geb_leb in E. apply Z.leb_gt in E.
      unfold Config.PLAYER_FRAME_DELAY in *. repeat split; lia.
  - intro Hf. cbn [PlayerOps.update current_frame frame_counter].
    unfold PlayerOps.advance_frame. rewrite Hf. auto.
  - intros times Hf H0 Hl.
    destruct times as [|t1 [|t2 [|t3 [|t4 [|t5 [|]]]]]]; try discriminate Hl.
    assert (step : forall q t c,
              frozen q = false -> frame_counter q = c -> c + 1 < 5 ->
              frozen (PlayerOps.update q t) = false /\
              frame_counter (PlayerOps.update q t) = c + 1 /\
              current_frame (PlayerOps.update q t) = current_frame q /\
              n_frames (PlayerOps.update q t) = n_frames q).
    { intros q t c Hq Hqc Hlt.
      destruct (update_animation q t Hq) as (A & _).
      destruct A as (A1 & A2);
        [unfold Config.PLAYER_FRAME_DELAY; lia|].
      rewrite A1, A2, Hqc. auto. }
    cbn [player_updates fold_left].
    destruct (step p t1 0 Hf H0 ltac:(lia)) as (F1 & C1 & R1 & N1).
    destruct (step _ t2 1 F1 C1 ltac:(lia)) as (F2 & C2 & R2 & N2).
    destruct (step _ t3 2 F2 C2 ltac:(lia)) as (F3 & C3 & R3 & N3).
    destruct (step _ t4 3 F3 C3 ltac:(lia)) as (F4 & C4 & R4 & N4).
    destruct (update_animation
                (PlayerOps.update (PlayerOps.update (PlayerOps.update
                   (PlayerOps.update p t1) t2) t3) t4) t5 F4) as (_ & B).
    destruct B as (B1 & B2);
      [rewrite C4; unfold Config.PLAYER_FRAME_DELAY; lia|].
    rewrite B1, B2, R4, R3, R2, R1, N4, N3, N2, N1.
    split; [reflexivity|]. split; [reflexivity|].
    intros k Hk.
    destruct k as [|[|[|[|[|k]]]]]; try lia;
      cbn [firstn player_updates fold_left]; congruence.
Qed.

Lemma animation_frame_cycle_witness :
  map (fun k => current_frame
                  (player_updates demo_player (repeat 0 k)))
      [0; 4; 5; 9; 10; 15; 20]%nat
  = [0; 0; 1; 1; 2; 3; 0] /\
  0 <= current_frame (PlayerOps.update demo_player 0) < 4.
Proof.
  split; [reflexivity|].
  destruct (animation_frame_cycle demo_player 0) as ((_ & H & _) & _);
    [reflexivity | split; [discriminate | reflexivity]
     | split; [discriminate | reflexivity] | exact H].
Defined.

End PlayerTimers.

Section PowerUpEffects.

(** X5. Collecting a timed power-up at clock [now] switches its effect on
    with expiry [now + 5000], leaves the other two effects and the rect
    alone, and a later [Player.update] at clock [now'] keeps it on exactly
    when [now' <= now + 5000]; collecting the same type again replaces the
    expiry instead of adding to it.  [MULTI_LIFE] does nothing to the
    player. *)
Theorem powerup_effect_lasts p t now now' :
  t <> MULTI_LIFE ->
  let p1 := PlayerOps.activate_powerup p t now in
  effect_active t p1 = true /\
  effect_end_time t p1 = now + Config.POWERUP_DURATION /\
  effect_active t (PlayerOps.update p1 now')
  = (now' <=? now + Config.POWERUP_DURATION) /\
  (forall t', t' <> t ->
     effect_active t' p1 = effect_active t' p /\
     effect_end_time t' p1 = effect_end_time t' p) /\
  rect p1 = rect p /\
  PlayerOps.activate_powerup p1 t now' = PlayerOps.activate_powerup p t now' /\
  PlayerOps.activate_powerup p MULTI_LIFE now = p.
Proof.
  intros Ht p1. subst p1.
  destruct t; try (exfalso; apply Ht; reflexivity);
    cbn [PlayerOps.activate_powerup effect_active effect_end_time
         PlayerOps.update shield_active rapid_fire_active slow_time_active
         shield_end_time rapid_fire_end_time slow_time_end_time rect];
    rewrite expire_spec; cbn [andb];
    (split; [reflexivity|]); (split; [reflexivity|]);
    (split; [reflexivity|]);
    (split; [|repeat split; reflexivity]);
    intros t' Ht'; destruct t'; try (split; reflexivity);
    exfalso; apply Ht'; reflexivity.
Qed.

Lemma powerup_effect_lasts_witness :
  map (fun now' =>
         slow_time_active
           (PlayerOps.update (PlayerOps.activate_powerup demo_player SLOW_TIME 1000)
                             now'))
      [1000; 5999; 6000; 6001]
  = [true; true; true; false] /\
  effect_active SLOW_TIME
    (PlayerOps.update (PlayerOps.activate_powerup demo_player SLOW_TIME 1000) 6001)
  = (6001 <=? 1000 + Config.POWERUP_DURATION).
Proof.
  split; [reflexivity|].
  apply (powerup_effect_lasts demo_player SLOW_TIME 1000 6001). discriminate.
Defined.

End PowerUpEffects.

Section Projectiles.
Import RectOps.

Lemma push_trail_length t c :
  (length t <= 5)%nat ->
  (1 <= length (ProjectileOps.push_trail t c) <= 5)%nat.
Proof.
  intro H. unfold ProjectileOps.push_trail.
  assert (E : length (t ++ [c]) = S (length t))
    by (rewrite length_app; cbn; lia).
  destruct (Z.of_nat (length (t ++ [c])) >? 5) eqn:G.
  - rewrite Z.gtb_ltb in G. apply Z.ltb_lt in G.
    destruct (t ++ [c]) as [|x rest] eqn:Et; cbn in *; lia.
  - rewrite Z.gtb_ltb in G. apply Z.ltb_ge in G. lia.
Qed.

(** The shape every stored projectile has. *)
Lemma advance_Forall sc tm ps :
  Forall (fun p => (length (trail_positions p) <= 5)%nat /\
                   rw (proj_rect p) = 20 /\ rh (proj_rect p) = 10) ps ->
  Forall (fun p => (1 <= length (trail_positions p) <= 5)%nat /\
                   rx (proj_rect p) <= SCREEN_WIDTH sc /\
                   rw (proj_rect p) = 20 /\ rh (proj_rect p) = 10)
         (PM.advance sc ps tm) /\
  (length (PM.advance sc ps tm) <= length ps)%nat.
Proof.
  unfold PM.advance.
  induction 1 as [|p rest (Hl & Hw & Hh) _ (IH1 & IH2)]; cbn [map filter].
  - split; [constructor | cbn; lia].
  - cbn [ProjectileOps.update snd].
    match goal with
    | |- context [if ?c then _ else _] => destruct c eqn:E
    end; cbn [map fst length].
    + split; [|lia]. constructor; [|exact IH1].
      cbn [trail_positions proj_rect]. apply Z.leb_le in E.
      split; [apply push_trail_length; exact Hl|]. auto.
    + split; [exact IH1 | lia].
Qed.

(** X6. After [ProjectileManager.update] on an active manager whose
    projectiles have the standard 20x10 size and at most five trail
    positions, every stored projectile still has that size, between one
    and five trail positions, and a left edge not beyond the window's
    width (the others were dropped); at most two projectiles were added,
    and the difficulty multiplier and the active flag are untouched.  The
    call returns whenever the window is at least 10 high.  An inactive
    manager is returned as it is. *)
Theorem projectiles_after_update sc pm player draw :
  Forall (fun p => (length (trail_positions p) <= 5)%nat /\
                   rw (proj_rect p) = 20 /\ rh (proj_rect p) = 10)
         (projectiles pm) ->
  (pm_active pm = true ->
   (forall pm',
      PM.update sc pm player draw = Some pm' ->
      Forall (fun p => (1 <= length (trail_positions p) <= 5)%nat /\
                       rx (proj_rect p) <= SCREEN_WIDTH sc /\
                       rw (proj_rect p) = 20 /\ rh (proj_rect p) = 10)
             (projectiles pm') /\
      (length (projectiles pm') <= length (projectiles pm) + 2)%nat /\
      difficulty_multiplier pm' = difficulty_multiplier pm /\
      pm_active pm' = true) /\
   (snd Config.PROJECTILE_SIZE <= SCREEN_HEIGHT sc ->
    exists pm', PM.update sc pm player draw = Some pm')) /\
  (pm_active pm = false -> PM.update sc pm player draw = Some pm).
Proof.
  intros Hall. split; intro Ha;
    [|unfold PM.update; rewrite Ha; reflexivity].
  split; [|apply pm_update_returns].
  intros pm' H. unfold PM.update in H. rewrite Ha in H. cbn [negb] in H.
  assert (Hps : forall ps,
            Forall (fun p => (length (trail_positions p) <= 5)%nat /\
                             rw (proj_rect p) = 20 /\ rh (proj_rect p) = 10) ps ->
            (length ps <= length (projectiles pm) + 2)%nat ->
            forall fc,
              let pm1 := mkPM (PM.advance sc ps (PM.time_multiplier player)) fc
                              true (difficulty_multiplier pm) in
              Forall (fun p => (1 <= length (trail_positions p) <= 5)%nat /\
                               rx (proj_rect p) <= SCREEN_WIDTH sc /\
                               rw (proj_rect p) = 20 /\ rh (proj_rect p) = 10)
                     (projectiles pm1) /\
              (length (projectiles pm1) <= length (projectiles pm) + 2)%nat /\
              difficulty_multiplier pm1 = difficulty_multiplier pm /\
              pm_active pm1 = true).
  { intros ps Hf Hlen fc pm1. subst pm1.
    cbn [projectiles difficulty_multiplier pm_active].
    destruct (advance_Forall sc (PM.time_multiplier player) ps Hf) as (A & B).
    repeat split; try exact A. lia. }
  destruct (Qgeb _ _).
  - destruct (PM.spawn sc pm draw) as [new|] eqn:Es; [|discriminate].
    injection H as <-.
    destruct (spawn_shape _ _ _ _ Es) as (_ & B & F & _).
    apply Hps.
    + apply Forall_app. split; [exact Hall|].
      eapply Forall_impl; [|exact F]. cbn.
      intros p (Et & _ & Ew & Eh). rewrite Et. cbn. auto with zarith.
    + rewrite length_app. lia.
  - injection H as <-. apply Hps; [exact Hall | lia].
Qed.

Lemma projectiles_after_update_witness :
  option_map
    (fun pm' => map (fun p => (rx (proj_rect p), length (trail_positions p)))
                    (projectiles pm'))
    (PM.update demo_screen
       (mkPM [mkProjectile (mkRect 890 5 20 10) (15 # 2) [];
              mkProjectile (mkRect 895 5 20 10) (15 # 2) []] 13 true 1)
       demo_player (fun _ => (50, 1%Q)))
  = Some [(898, 1%nat); (7, 1%nat)] /\
  exists pm',
    PM.update demo_screen
       (mkPM [mkProjectile (mkRect 890 5 20 10) (15 # 2) [];
              mkProjectile (mkRect 895 5 20 10) (15 # 2) []] 13 true 1)
       demo_player (fun _ => (50, 1%Q)) = Some pm' /\
    Forall (fun p => (1 <= length (trail_positions p) <= 5)%nat /\
                     rx (proj_rect p) <= SCREEN_WIDTH demo_screen /\
                     rw (proj_rect p) = 20 /\ rh (proj_rect p) = 10)
           (projectiles pm').
Proof.
  split; [reflexivity|].
  destruct (projectiles_after_update demo_screen
              (mkPM [mkProjectile (mkRect 890 5 20 10) (15 # 2) [];
                     mkProjectile (mkRect 895 5 20 10) (15 # 2) []] 13 true 1)
              demo_player (fun _ => (50, 1%Q))) as (H & _).
  - repeat constructor; cbn; lia.
  - destruct (H eq_refl) as (Hall & Hret).
    destruct Hret as (pm' & E); [cbn; lia|].
    exists pm'. split; [exact E|].
    destruct (Hall pm' E) as (F & _). exact F.
Defined.

(** X7. After [update_difficulty(score)] a firing spawns one projectile
    while the score is below 2000 and two from 2000 on; the spawn returns
    in a window at least 10 high and raises in a lower one. *)
Theorem two_projectiles_from_2000 sc pm score draw :
  (forall new,
     PM.spawn sc (PM.update_difficulty pm score) draw = Some new ->
     length new = (if score <? 2000 then 1%nat else 2%nat)) /\
  (snd Config.PROJECTILE_SIZE <= SCREEN_HEIGHT sc ->
   exists new, PM.spawn sc (PM.update_difficulty pm score) draw = Some new) /\
  (SCREEN_HEIGHT sc < snd Config.PROJECTILE_SIZE ->
   PM.spawn sc (PM.update_difficulty pm score) draw = None) /\
  PM.num_projectiles (PM.update_difficulty pm score)
  = (if score <? 2000 then 1%nat else 2%nat).
Proof.
  assert (E : PM.num_projectiles (PM.update_difficulty pm score)
              = (if score <? 2000 then 1%nat else 2%nat)).
  { unfold PM.num_projectiles, Qltb.
    cbn [PM.update_difficulty difficulty_multiplier].
    unfold Config.DIFFICULTY_INCREASE_SCORE.
    destruct (score <? 2000) eqn:Hs.
    - apply Z.ltb_lt in Hs.
      assert (Hk : score / 500 <= 3)
        by (apply Z.lt_succ_r, Z.div_lt_upper_bound; lia).
      destruct (Qle_bool 2 (1 + inject_Z (score / 500) * (3 # 10))) eqn:Q;
        [|reflexivity].
      apply Qle_bool_iff in Q. exfalso.
      pose proof (Qle_trans _ _ _ Q (multiplier_of_steps_le _ _ Hk)) as C.
      vm_compute in C. exact (C eq_refl).
    - apply Z.ltb_ge in Hs.
      assert (Hk : 4 <= score / 500) by (apply Z.div_le_lower_bound; lia).
      assert (Q : Qle_bool 2 (1 + inject_Z (score / 500) * (3 # 10)) = true).
      { apply Qle_bool_iff.
        apply (Qle_trans _ (1 + inject_Z 4 * (3 # 10))).
        - discriminate.
        - apply multiplier_of_steps_le. exact Hk. }
      rewrite Q. reflexivity. }
  split; [|split; [|split; [|exact E]]].
  - intros new H. destruct (spawn_shape _ _ _ _ H) as (L & _).
    rewrite L. exact E.
  - apply spawn_returns.
  - intro Hh.
    destruct (PM.spawn sc (PM.update_difficulty pm score) draw) as [new|] eqn:Es;
      [|reflexivity].
    destruct (spawn_shape _ _ _ _ Es) as (_ & _ & _ & C). lia.
Qed.

End Projectiles.
Section Particles.

Lemma system_update_step ps k :
  Forall (fun p => lifetime p <= Z.of_nat (S k)) ps ->
  Forall (fun p => 1 <= lifetime p <= Z.of_nat k) (ParticleOps.system_update ps) /\
  (length (ParticleOps.system_update ps) <= length ps)%nat.
Proof.
  unfold ParticleOps.system_update.
  induction 1 as [|p rest Hp _ (IH1 & IH2)]; cbn [map filter].
  - split; [constructor | cbn; lia].
  - cbn [ParticleOps.update snd lifetime].
    destruct (lifetime p - 1 >? 0) eqn:E; cbn [map fst length].
    + rewrite Z.gtb_ltb in E. apply Z.ltb_lt in E.
      split; [|lia]. constructor; [cbn; lia | exact IH1].
    + split; [exact IH1 | lia].
Qed.

Lemma system_update_spent ps :
  Forall (fun p => lifetime p <= 1) ps -> ParticleOps.system_update ps = [].
Proof.
  intro H. destruct (system_update_step ps 0 H) as (A & _).
  destruct (ParticleOps.system_update ps) as [|p rest]; [reflexivity|].
  inversion A as [|? ? Hp]; subst. cbn in Hp. lia.
Qed.

(** X8. [ParticleSystem.update] keeps only particles with at least one
    tick left, never adds one, and empties the system for good: particles
    whose lifetimes are at most [n + 1] are all gone after [n + 1]
    updates. *)
Theorem particles_die_out ps n :
  Forall (fun p => lifetime p <= Z.of_nat (S n)) ps ->
  Forall (fun p => 1 <= lifetime p) (ParticleOps.system_update ps) /\
  (length (ParticleOps.system_update ps) <= length ps)%nat /\
  Nat.iter (S n) ParticleOps.system_update ps = [].
Proof.
  intro H. destruct (system_update_step ps n H) as (A & B).
  split; [|split; [exact B|]].
  - eapply Forall_impl; [|exact A]. cbn. intros p Hp. lia.
  - clear A B. revert ps H. induction n as [|n IH]; intros ps H.
    + cbn [Nat.iter]. apply system_update_spent. exact H.
    + rewrite Nat.iter_succ_r. apply IH.
      destruct (system_update_step ps (S n) H) as (A & _).
      eapply Forall_impl; [|exact A]. cbn. intros p Hp. lia.
Qed.

Lemma particles_die_out_witness :
  length (ParticleOps.add_explosion [] 10 10 Config.RED 15 (fun _ => demo_draw))
  = 15%nat /\
  length (Nat.iter 19 ParticleOps.system_update
            (ParticleOps.add_explosion [] 10 10 Config.RED 15 (fun _ => demo_draw)))
  = 15%nat /\
  Nat.iter 20 ParticleOps.system_update
    (ParticleOps.add_explosion [] 10 10 Config.RED 15 (fun _ => demo_draw))
  = [].
Proof.
  split; [reflexivity|]. split; [reflexivity|].
  apply (particles_die_out
           (ParticleOps.add_explosion [] 10 10 Config.RED 15 (fun _ => demo_draw))
           19).
  repeat constructor; cbn; lia.
Defined.

End Particles.

Section PowerUps.
Import RectOps GameOps.





End PowerUps.
Section Collection.
Import RectOps GameOps.

Lemma activate_keeps_effect p t now t' :
  effect_active t' p = true ->
  effect_active t' (PlayerOps.activate_powerup p t now) = true.
Proof. destruct t, t'; cbn; auto. Qed.

Lemma activate_sets_effect p t now :
  is_multi_life t = false ->
  effect_active t (PlayerOps.activate_powerup p t now) = true.
Proof. destruct t; cbn; auto; discriminate. Qed.

Lemma collect_result env pus : forall i g,
  let touched := fun pu => colliderect (pu_rect pu) (rect (player g)) in
  let g' := collect env i pus g in
  powerups g' = filter (fun pu => negb (touched pu)) pus /\
  lives g'
  = lives g
    + Z.of_nat (length (filter (fun pu => touched pu && is_multi_life (pu_type pu))
                               pus)) /\
  length (particle_system g')
  = (length (particle_system g) + 15 * length (filter touched pus))%nat /\
  (forall t, effect_active t (player g) = true ->
             effect_active t (player g') = true) /\
  (forall pu, In pu pus -> touched pu = true ->
              is_multi_life (pu_type pu) = false ->
              effect_active (pu_type pu) (player g') = true).
Proof.
  induction pus as [|pu rest IH]; intros i g touched g'; subst touched g';
    cbn [collect filter].
  - cbn. repeat split; auto; try lia; try contradiction.
  - destruct (colliderect (pu_rect pu) (rect (player g))) eqn:Hc; cbn [negb andb].
    + match goal with
      | |- context [collect env (S i) rest ?X] =>
          specialize (IH (S i) X); cbv zeta in IH;
          assert (Er : rect (player X) = rect (player g))
            by (destruct (pu_type pu); reflexivity);
          assert (El : lives X
                       = lives g
                         + (if is_multi_life (pu_type pu) then 1 else 0))
            by (destruct (pu_type pu); cbn; lia);
          assert (Ep : length (particle_system X)
                       = (length (particle_system g) + 15)%nat)
            by (destruct (pu_type pu); cbn; rewrite length_app; cbn; lia);
          assert (Ek : forall t, effect_active t (player g) = true ->
                                 effect_active t (player X) = true)
            by (intros t Ht; destruct (pu_type pu); cbn [player set_player
                  set_lives set_particle_system]; auto;
                apply activate_keeps_effect; exact Ht);
          assert (Es : is_multi_life (pu_type pu) = false ->
                       effect_active (pu_type pu) (player X) = true)
            by (intro Hm; destruct (pu_type pu); try discriminate Hm;
                reflexivity);
          rewrite Er in IH;
          destruct IH as (I1 & I2 & I3 & I4 & I5);
          rewrite I1, I2, I3, El, Ep
      end.
      split; [reflexivity|]. split.
      { destruct (is_multi_life (pu_type pu)); cbn [length]; lia. }
      split; [cbn [length]; lia|]. split.
      { intros t Ht. apply I4, Ek, Ht. }
      intros pu' [<-|Hin] Ht Hm.
      * apply I4, Es, Hm.
      * apply I5; assumption.
    + specialize (IH (S i) g). cbv zeta in IH.
      destruct IH as (I1 & I2 & I3 & I4 & I5).
      cbn [set_powerups powerups lives particle_system player].
      rewrite I1, I2, I3. repeat split; auto.
      intros pu' [<-|Hin] Ht Hm; [congruence|]. apply I5; assumption.
Qed.

(** X10. The collection loop removes exactly the power-ups whose rect
    overlaps the player's (the others stay, in order), adds one life per
    collected [MULTI_LIFE], adds 15 particles per collected power-up,
    switches on the effect of every other collected type, and switches no
    active effect off. *)
Theorem collect_powerups_result env g :
  let touched := fun pu => colliderect (pu_rect pu) (rect (player g)) in
  let g' := collect_powerups env g in
  powerups g' = filter (fun pu => negb (touched pu)) (powerups g) /\
  lives g'
  = lives g
    + Z.of_nat (length (filter (fun pu => touched pu && is_multi_life (pu_type pu))
                               (powerups g))) /\
  length (particle_system g')
  = (length (particle_system g) + 15 * length (filter touched (powerups g)))%nat /\
  (forall t, effect_active t (player g) = true ->
             effect_active t (player g') = true) /\
  (forall pu, In pu (powerups g) -> touched pu = true ->
              is_multi_life (pu_type pu) = false ->
              effect_active (pu_type pu) (player g') = true).
Proof. exact (collect_result env (powerups g) 0 g). Qed.

End Collection.
Section CutsceneTimeline.
Import RectOps GameOps Loop.

(** X11. A started cutscene shows its first message until an update
    finds at least 3000 ms elapsed, then its second message (the timer
    restarting at that update's clock) until an update again finds 3000 ms
    elapsed, and only that update reports completion and deactivates it;
    updates in between change nothing and report [False]; once inactive,
    every update reports [True] and changes nothing. *)
Theorem cutscene_timeline c r t0 t1 t2 :
  let c0 := CutsceneOps.start c r t0 in
  (cs_active c0 = true /\ stage c0 = 0 /\ timer_start c0 = t0) /\
  (forall now, now - t0 < Config.CUTSCENE_MESSAGE_DURATION ->
               CutsceneOps.update c0 now = (c0, false)) /\
  (Config.CUTSCENE_MESSAGE_DURATION <= t1 - t0 ->
   let c1 := fst (CutsceneOps.update c0 t1) in
   snd (CutsceneOps.update c0 t1) = false /\
   cs_active c1 = true /\ stage c1 = 1 /\ timer_start c1 = t1 /\
   (forall now, now - t1 < Config.CUTSCENE_MESSAGE_DURATION ->
                CutsceneOps.update c1 now = (c1, false)) /\
   (Config.CUTSCENE_MESSAGE_DURATION <= t2 - t1 ->
    let c2 := fst (CutsceneOps.update c1 t2) in
    snd (CutsceneOps.update c1 t2) = true /\
    cs_active c2 = false /\
    forall now, CutsceneOps.update c2 now = (c2, true))).
Proof.
  intro c0. subst c0.
  assert (wait : forall c' now,
            cs_active c' = true ->
            now - timer_start c' < Config.CUTSCENE_MESSAGE_DURATION ->
            CutsceneOps.update c' now = (c', false)).
  { intros c' now Ha Hlt. unfold CutsceneOps.update. rewrite Ha. cbn [negb].
    rewrite Z.geb_leb, (proj2 (Z.leb_gt _ _) Hlt). reflexivity. }
  split; [cbn; auto|]. split.
  - intros now Hlt. apply wait; [reflexivity | exact Hlt].
  - intros H1 c1. subst c1.
    assert (E1 : CutsceneOps.update (CutsceneOps.start c r t0) t1
                 = (mkCutscene (enemy_size c) true 1 t1
                      (enemy_rect (CutsceneOps.start c r t0)), false)).
    { unfold CutsceneOps.update. cbn [CutsceneOps.start cs_active negb
        timer_start stage enemy_size enemy_rect].
      rewrite Z.geb_leb, (proj2 (Z.leb_le _ _) H1). reflexivity. }
    rewrite E1. cbn [fst snd cs_active stage timer_start].
    split; [reflexivity|]. split; [reflexivity|]. split; [reflexivity|].
    split; [reflexivity|]. split.
    + intros now Hlt. apply wait; [reflexivity | exact Hlt].
    + intros H2.
      assert (E2 : CutsceneOps.update
                     (mkCutscene (enemy_size c) true 1 t1
                        (enemy_rect (CutsceneOps.start c r t0))) t2
                   = (mkCutscene (enemy_size c) false 2 t1
                        (enemy_rect (CutsceneOps.start c r t0)), true)).
      { unfold CutsceneOps.update. cbn [cs_active negb timer_start stage
          enemy_size enemy_rect].
        rewrite Z.geb_leb, (proj2 (Z.leb_le _ _) H2). reflexivity. }
      rewrite E2. cbn [fst snd cs_active].
      split; [reflexivity|]. split; [reflexivity|]. intro now. reflexivity.
Qed.

Lemma set_screen_same g : set_screen g (screen g) = g.
Proof. destruct g; reflexivity. Qed.

Lemma handle_events_only_resize evs : forall g g1,
  state g = PLAYING \/ state g = CUTSCENE \/ state g = OPENING_CRAWL ->
  handle_events evs g = Some g1 ->
  exists sc, g1 = set_screen g sc.
Proof.
  induction evs as [|i rest IH]; cbn [handle_events]; intros g g1 Hst H.
  - exists (screen g). rewrite set_screen_same. congruence.
  - destruct (handle_event i g) as [g'|] eqn:E; [|discriminate].
    assert (Hs : exists sc, g' = set_screen g sc).
    { destruct (handle_event_cases _ _ _ E)
        as [-> | [(w & h & ->) | [(Hm & _) | (Hm & _)]]].
      - exists (screen g). symmetry. apply set_screen_same.
      - eauto.
      - destruct Hst as [F|[F|F]]; congruence.
      - destruct Hst as [F|[F|F]]; congruence. }
    destruct Hs as (sc & ->).
    destruct (IH (set_screen g sc) g1 Hst H) as (sc' & ->).
    exists sc'. reflexivity.
Qed.

(** X12. A loop iteration that begins in [CUTSCENE] changes neither
    score, lives, projectiles, power-ups, particles, the player's rect nor
    the trace, whatever the events; it ends either still in [CUTSCENE]
    with the freeze and the manager's flag as they were, or, when the
    cutscene reports completion, in [PLAYING] with the player unfrozen and
    the projectile manager active again. *)
Theorem cutscene_frame_freezes evs env g g' :
  state g = CUTSCENE ->
  frame evs env g = Some g' ->
  score g' = score g /\ lives g' = lives g /\
  projectiles (projectile_manager g') = projectiles (projectile_manager g) /\
  powerups g' = powerups g /\ particle_system g' = particle_system g /\
  rect (player g') = rect (player g) /\ trace g' = trace g /\
  cutscene_triggered g' = cutscene_triggered g /\
  ((state g' = CUTSCENE /\
    frozen (player g') = frozen (player g) /\
    pm_active (projectile_manager g') = pm_active (projectile_manager g)) \/
   (state g' = PLAYING /\
    frozen (player g') = false /\
    pm_active (projectile_manager g') = true)).
Proof.
  intros Hst H.
  destruct (frame_steps _ _ _ _ H) as (g1 & g2 & E & E2 & ->).
  destruct (handle_events_only_resize _ _ _ (or_intror (or_introl Hst)) E)
    as (sc & ->).
  unfold update in E2. cbn [set_screen state] in E2. rewrite Hst in E2.
  injection E2 as <-.
  unfold update_cutscene. cbv zeta.
  destruct (snd (CutsceneOps.update (cutscene (set_screen g sc))
                                    (t_cutscene_update env))) eqn:Hdone.
  - unfold draw. cbn. repeat split. right. auto.
  - unfold draw. cbn. rewrite Hst. repeat split. left. auto.
Qed.

Lemma cutscene_frame_freezes_witness :
  let g := trigger_cutscene (demo_env no_keys 0 0) at_threshold in
  update_game (demo_env no_keys 0 0) at_threshold = Some g /\
  state g = CUTSCENE /\
  option_map summary (frame [] (demo_env space_only 2999 0) g)
  = Some (CUTSCENE, 3, 1000, true, [MusicPlayLoop; CutsceneStart]) /\
  option_map (fun g' => score g') (frame [] (demo_env space_only 2999 0) g)
  = Some (score g).
Proof.
  intro g. split; [reflexivity|]. split; [reflexivity|].
  split; [reflexivity|].
  destruct (frame [] (demo_env space_only 2999 0) g) as [g'|] eqn:E;
    [|discriminate E].
  destruct (cutscene_frame_freezes [] (demo_env space_only 2999 0) g g'
              eq_refl E) as (Hs & _).
  cbn [option_map]. rewrite Hs. reflexivity.
Defined.

(** X13. The state machine.  The update dispatch of the main loop only
    makes the moves crawl -> menu, playing -> cutscene, playing -> game
    over and cutscene -> playing (or stays); a single event only makes the
    moves menu -> playing and game over -> menu (or stays), and leaves
    crawl, playing and cutscene alone; drawing never changes the state.
    Only an update that begins in [PLAYING] can raise. *)
Theorem state_machine :
  (forall env g g', update env g = Some g' ->
                    update_may (state g) (state g') = true) /\
  (forall env g, update env g = None -> state g = PLAYING) /\
  (forall i g g', handle_event i g = Some g' ->
                  event_may (state g) (state g') = true) /\
  (forall g, state (draw g) = state g).
Proof.
  split; [|split; [|split]].
  - intros env g g' H. unfold update in H. destruct (state g) eqn:Hst;
      try (injection H as <-; rewrite Hst; reflexivity).
    + injection H as <-.
      destruct (update_opening_crawl_fields g) as ([E|E] & _);
        rewrite E; try rewrite Hst; reflexivity.
    + destruct (update_game_cases _ _ _ H)
        as [(_ & ->) | [(_ & _ & ->) | (_ & _ & b & Hb & ->)]].
      * rewrite Hst. reflexivity.
      * reflexivity.
      * destruct (playing_tick_summary env g b Hb)
          as (_ & _ & _ & _ & _ & _ & Hmiss & Hhit).
        cbv zeta in Hmiss, Hhit.
        destruct (snd (PM.check_collision (projectile_manager b)
                         (rect (player b)) (player b))).
        -- destruct (Hhit eq_refl) as (_ & Hover & Hlive).
           destruct (Z_le_gt_dec (lives b - 1) 0) as [Hz|Hz].
           ++ destruct (Hover Hz) as (-> & _). reflexivity.
           ++ destruct (Hlive ltac:(lia)) as (-> & _). rewrite Hst. reflexivity.
        -- destruct (Hmiss eq_refl) as (-> & _). rewrite Hst. reflexivity.
    + injection H as <-.
      destruct (update_cutscene_fields env g) as ([E|E] & _);
        rewrite E; try rewrite Hst; reflexivity.
  - intros env g H. unfold update in H.
    destruct (state g); try discriminate H. reflexivity.
  - intros i g g' H.
    destruct (handle_event_cases _ _ _ H)
      as [-> | [(w & h & ->) | [(Hm & ->) | (Hm & ->)]]].
    + destruct (state g); reflexivity.
    + cbn. destruct (state g); reflexivity.
    + destruct (start_game_fields (fst (snd i)) (snd (snd i)) g) as (E & _).
      rewrite E, Hm. reflexivity.
    + cbn. rewrite Hm. reflexivity.
  - intro g. unfold draw. destruct (state g) eqn:E; cbn; auto.
Qed.

End CutsceneTimeline.

Section OpeningCrawlLength.
Import RectOps GameOps Loop.

Lemma frame_in_crawl evs env g g' :
  state g = OPENING_CRAWL ->
  frame evs env g = Some g' ->
  opening_crawl g' = fst (CrawlOps.update (opening_crawl g)) /\
  (snd (CrawlOps.update (opening_crawl g)) = false ->
   state g' = OPENING_CRAWL) /\
  (snd (CrawlOps.update (opening_crawl g)) = true ->
   state g' = MENU /\ start_button_rect g' <> None).
Proof.
  intros Hst H.
  destruct (frame_steps _ _ _ _ H) as (g1 & g2 & E & E2 & ->).
  destruct (handle_events_only_resize _ _ _ (or_intror (or_intror Hst)) E)
    as (sc & ->).
  unfold update in E2. cbn [set_screen state] in E2. rewrite Hst in E2.
  injection E2 as <-.
  unfold update_opening_crawl. cbv zeta. cbn [set_screen opening_crawl].
  destruct (snd (CrawlOps.update (opening_crawl g))).
  - unfold draw. cbn.
    split; [reflexivity|]. split; [discriminate|].
    intros _. split; [reflexivity | discriminate].
  - unfold draw. cbn. rewrite Hst. cbn.
    split; [reflexivity|]. split; [intros _; exact Hst | discriminate].
Qed.

Lemma run_crawl inputs : forall g g' c',
  state g = OPENING_CRAWL ->
  crawl_ticks (length inputs) (opening_crawl g) = Some c' ->
  run inputs g = Some g' ->
  state g' = OPENING_CRAWL /\ opening_crawl g' = c'.
Proof.
  induction inputs as [|[evs env] rest IH]; cbn [run length crawl_ticks];
    intros g g' c' Hst Hc H.
  - split; congruence.
  - destruct (frame evs env g) as [g1|] eqn:E; [|discriminate].
    destruct (frame_in_crawl _ _ _ _ Hst E) as (Eo & Hno & _).
    destruct (snd (CrawlOps.update (opening_crawl g))); [discriminate|].
    apply (IH g1); [apply Hno; reflexivity | rewrite Eo; exact Hc | exact H].
Qed.

Lemma crawl_ticks_split k : forall m c c',
  crawl_ticks (k + m) c = Some c' ->
  exists c1, crawl_ticks k c = Some c1 /\ crawl_ticks m c1 = Some c'.
Proof.
  induction k as [|k IH]; cbn [Nat.add crawl_ticks]; intros m c c' H.
  - eauto.
  - destruct (snd (CrawlOps.update c)); [discriminate|]. apply IH. exact H.
Qed.

Lemma run_app l1 : forall l2 g,
  run (l1 ++ l2) g
  = match run l1 g with Some g1 => run l2 g1 | None => None end.
Proof.
  induction l1 as [|[evs env] rest IH]; cbn [app run]; intros l2 g.
  - reflexivity.
  - destruct (frame evs env g); [apply IH | reflexivity].
Qed.

Lemma crawl_length_general n c0 c :
  crawl_ticks n c0 = Some c ->
  snd (CrawlOps.update c) = true ->
  forall inputs g0 g,
    state g0 = OPENING_CRAWL ->
    opening_crawl g0 = c0 ->
    run inputs g0 = Some g ->
    ((length inputs <= n)%nat -> state g = OPENING_CRAWL) /\
    (length inputs = S n ->
     state g = MENU /\ start_button_rect g <> None).
Proof.
  intros Hc Hdone inputs g0 g Hst Ho H. subst c0. split; intro Hl.
  - replace n with (length inputs + (n - length inputs))%nat in Hc by lia.
    destruct (crawl_ticks_split _ _ _ _ Hc) as (c1 & Hc1 & _).
    exact (proj1 (run_crawl inputs g0 g c1 Hst Hc1 H)).
  - rewrite <- (firstn_skipn n inputs), run_app in H.
    destruct (run (firstn n inputs) g0) as [g1|] eqn:E1; [|discriminate].
    assert (L1 : length (firstn n inputs) = n)
      by (rewrite length_firstn; lia).
    destruct (run_crawl (firstn n inputs) g0 g1 c Hst) as (S1 & O1);
      [rewrite L1; exact Hc | exact E1 |].
    assert (L2 : length (skipn n inputs) = 1%nat)
      by (rewrite length_skipn; lia).
    destruct (skipn n inputs) as [|[evs env] [|]]; try discriminate L2.
    cbn [run] in H.
    destruct (frame evs env g1) as [g2|] eqn:E2; [|discriminate].
    injection H as <-.
    destruct (frame_in_crawl _ _ _ _ S1 E2) as (_ & _ & Hyes).
    apply Hyes. rewrite O1. exact Hdone.
Qed.

Lemma crawl_takes_1300 :
  exists c,
    crawl_ticks 1300 initial_crawl = Some c /\
    snd (CrawlOps.update c) = true.
Proof.
  set (r := crawl_ticks 1300 initial_crawl).
  assert (E : match r with
              | Some c => snd (CrawlOps.update c)
              | None => false
              end = true) by (vm_compute; reflexivity).
  clearbody r. destruct r as [c|]; [|discriminate E].
  exists c. split; [reflexivity | exact E].
Qed.

Lemma init_crawl a : opening_crawl (init a) = initial_crawl.
Proof. reflexivity. Qed.

(** X14. The opening crawl cannot be shortened: whatever events arrive,
    the game is still in [OPENING_CRAWL] after each of the first 1300 loop
    iterations, and after the 1301st it is in [MENU] with the start
    button's rect in place. *)
Theorem opening_crawl_length a inputs g :
  run inputs (init a) = Some g ->
  ((length inputs <= 1300)%nat -> state g = OPENING_CRAWL) /\
  (length inputs = 1301%nat ->
   state g = MENU /\ start_button_rect g <> None).
Proof.
  intro H. destruct crawl_takes_1300 as (c & Hc & Hdone).
  revert Hc. generalize (init_crawl a). generalize initial_crawl as c0.
  intros c0 Ho Hc.
  exact (crawl_length_general 1300 c0 c Hc Hdone inputs (init a) g
           eq_refl Ho H).
Qed.

Lemma opening_crawl_length_witness : state menu_game = MENU.
Proof.
  unfold menu_game, game_after.
  generalize (opening_crawl_length demo_assets (idle_frames 0 1301 0)).
  assert (E : match run (idle_frames 0 1301 0) (init demo_assets) with
              | Some _ => true
              | None => false
              end = true) by (vm_compute; reflexivity).
  revert E.
  generalize (run (idle_frames 0 1301 0) (init demo_assets)) as r.
  intros r E H. destruct r as [g|]; [|discriminate E].
  apply (H g eq_refl).
  unfold idle_frames. rewrite length_map, length_seq. reflexivity.
Defined.

End OpeningCrawlLength.

Section TickBounds.
Import RectOps GameOps Loop.

Lemma check_collisions_projectiles env g :
  shield_active (player g) = true ->
  check_collisions env g
  = set_projectile_manager g (projectile_manager g).
Proof.
  intro Hs. unfold check_collisions, PM.check_collision. rewrite Hs. reflexivity.
Qed.

(** X15. One call of [update_game] costs at most one life, however many
    projectiles overlap the player; and when the shield is active at the
    collision check of a playing tick ([b] being the game as the tick has
    it there), the tick returns having cost no life, removed no
    projectile, played no sound and stayed in [PLAYING]. *)
Theorem at_most_one_life_per_tick env g :
  (forall g', update_game env g = Some g' -> lives g - 1 <= lives g') /\
  (forall b,
     state g = PLAYING -> cutscene_due g = false ->
     before_collisions env g = Some b ->
     shield_active (player b) = true ->
     exists g',
       update_game env g = Some g' /\
       lives g' = lives b /\
       lives g <= lives g' /\
       state g' = PLAYING /\
       trace g' = trace g /\
       projectiles (projectile_manager g') = projectiles (projectile_manager b)).
Proof.
  split.
  - intros g' H.
    destruct (update_game_cases _ _ _ H)
      as [(_ & ->) | [(_ & _ & ->) | (_ & _ & b & Hb & ->)]].
    + lia.
    + cbn. lia.
    + destruct (playing_tick_summary env g b Hb)
        as (_ & _ & _ & _ & _ & Hbl & Hmiss & Hhit).
      cbv zeta in Hmiss, Hhit.
      destruct (snd (PM.check_collision (projectile_manager b)
                       (rect (player b)) (player b))).
      * destruct (Hhit eq_refl) as (-> & _). lia.
      * destruct (Hmiss eq_refl) as (_ & -> & _). lia.
  - intros b Hp Hdue Hb Hs. rewrite (update_game_playing _ _ Hp), Hdue.
    destruct (playing_tick_summary env g b Hb)
      as (Et & _ & _ & _ & _ & Hbl & Hmiss & _).
    cbv zeta in Hmiss.
    assert (Hno : snd (PM.check_collision (projectile_manager b)
                                          (rect (player b)) (player b)) = false)
      by (unfold PM.check_collision; rewrite Hs; reflexivity).
    destruct (Hmiss Hno) as (Es & El & Etr).
    exists (from_collisions env b).
    split; [exact Et|]. rewrite Es, El, Etr. repeat split; auto.
    unfold from_collisions. cbv zeta.
    rewrite (check_collisions_projectiles env b Hs).
    unfold update_screen_shake. break_ifs; reflexivity.
Qed.

Lemma pm_update_bounds sc pm player draw pm' :
  0 <= fire_counter pm ->
  PM.update sc pm player draw = Some pm' ->
  difficulty_multiplier pm' = difficulty_multiplier pm /\
  0 <= fire_counter pm'.
Proof.
  intros H U. unfold PM.update in U.
  destruct (pm_active pm); cbn [negb] in U; [|injection U as <-; auto].
  destruct (Qgeb _ _).
  - destruct (PM.spawn sc pm draw); [|discriminate].
    injection U as <-. cbn. split; [reflexivity | lia].
  - injection U as <-. cbn. split; [reflexivity | lia].
Qed.

Lemma multiplier_at_least_one pm score :
  0 <= score ->
  (1 <= difficulty_multiplier (PM.update_difficulty pm score))%Q.
Proof.
  intro H. cbn [PM.update_difficulty difficulty_multiplier].
  assert (Hk : 0 <= score / Config.DIFFICULTY_INCREASE_SCORE)
    by (apply Z.div_pos; [exact H | reflexivity]).
  pose proof (multiplier_of_steps_le _ _ Hk) as Hm.
  eapply Qle_trans; [|exact Hm]. discriminate.
Qed.

Lemma before_projectiles_bounds env g :
  0 <= score g ->
  0 <= fire_counter (projectile_manager g) ->
  (1 <= difficulty_multiplier (projectile_manager (before_projectiles env g)))%Q /\
  0 <= fire_counter (projectile_manager (before_projectiles env g)).
Proof.
  intros Hs Hf. unfold before_projectiles. cbv zeta.
  cbn [set_projectile_manager projectile_manager].
  split.
  - replace (score _) with (score g)
      by (unfold handle_dash, handle_input; break_ifs; reflexivity).
    apply multiplier_at_least_one. exact Hs.
  - cbn. unfold handle_dash, handle_input; break_ifs; exact Hf.
Qed.

Lemma before_collisions_bounds env g b :
  0 <= score g ->
  0 <= fire_counter (projectile_manager g) ->
  before_collisions env g = Some b ->
  (1 <= difficulty_multiplier (projectile_manager b))%Q /\
  0 <= fire_counter (projectile_manager b) /\
  screen_shake b = screen_shake g.
Proof.
  intros Hs Hf H.
  destruct (before_collisions_steps _ _ _ H) as (pm & g1 & U & E1 & ->).
  destruct (spawn_powerup_frame _ _ _ E1)
    as (_ & _ & _ & _ & _ & _ & _ & _ & Epm & Esh & _).
  unfold collect_powerups.
  destruct (collect_player_frame env (powerups g1) 0 g1) as (_ & _ & E3 & E4).
  rewrite E3, E4, Epm, Esh. cbn.
  destruct (before_projectiles_bounds env g Hs Hf) as (Bm & Bf).
  destruct (pm_update_bounds _ _ _ _ _ Bf U) as (Em & F).
  rewrite Em.
  destruct (before_projectiles_frame env g) as (_ & _ & _ & _ & _ & _ & _ & Ek).
  auto.
Qed.

Lemma game_ok_update_game env g g' :
  game_ok g -> update_game env g = Some g' -> game_ok g'.
Proof.
  intros (Hs & Hm & Hk & Hf) H.
  destruct (update_game_cases _ _ _ H)
    as [(_ & ->) | [(_ & _ & ->) | (_ & _ & b & Hb & ->)]].
  - unfold game_ok; auto.
  - unfold game_ok; cbn; auto.
  - destruct (before_collisions_bounds env g b Hs Hf Hb) as (Bm & Bf & Bk).
    destruct (before_collisions_frame env g b Hb) as (_ & Bs & _).
    unfold from_collisions. cbv zeta.
    assert (C : (1 <= difficulty_multiplier
                        (projectile_manager (check_collisions env b)))%Q /\
                0 <= fire_counter (projectile_manager (check_collisions env b)) /\
                0 <= screen_shake (check_collisions env b) <= 10 /\
                score (check_collisions env b) = score b).
    { unfold check_collisions, PM.check_collision.
      destruct (shield_active (player b)) eqn:Hsh.
      - cbn. rewrite Bk. repeat split; auto; lia.
      - destruct (PM.remove_first_hit (projectiles (projectile_manager b))
                                      (rect (player b))) as [ps hit].
        cbn [fst snd]. destruct hit.
        + cbn [set_projectile_manager player]. rewrite Hsh. cbn [negb].
          cbn -[ParticleOps.add_explosion Z.leb Z.sub].
          destruct (lives b - 1 <=? 0); cbn; repeat split; auto; lia.
        + cbn. rewrite Bk. repeat split; auto; lia. }
    destruct C as (Cm & Cf & Ck & Cs).
    unfold game_ok, update_screen_shake.
    destruct (screen_shake (check_collisions env b) >? 0) eqn:G;
      cbn [set_score set_shake_offset set_screen_shake score projectile_manager
           screen_shake];
      rewrite Cs, Bs; rewrite Z.gtb_ltb in G;
      [apply Z.ltb_lt in G | apply Z.ltb_ge in G];
      repeat split; auto; lia.
Qed.

Lemma game_ok_handle_events evs : forall g g1,
  game_ok g -> handle_events evs g = Some g1 -> game_ok g1.
Proof.
  induction evs as [|i rest IH]; cbn [handle_events]; intros g g1 Hok E.
  - congruence.
  - destruct (handle_event i g) as [g2|] eqn:E2; [|discriminate].
    apply (IH g2 g1); [|exact E].
    destruct Hok as (Hs & Hm & Hk & Hf).
    destruct (handle_event_cases _ _ _ E2)
      as [-> | [(w & h & ->) | [(_ & ->) | (_ & ->)]]];
      unfold game_ok; try (cbn; auto; fail).
    unfold start_game. destruct (snd (snd i)); cbn; repeat split; auto; lia.
Qed.

Lemma game_ok_frame evs env g g' :
  game_ok g -> frame evs env g = Some g' -> game_ok g'.
Proof.
  intros Hok H.
  destruct (frame_steps _ _ _ _ H) as (g1 & g2 & E & E2 & ->).
  pose proof (game_ok_handle_events _ _ _ Hok E) as H1.
  assert (H2 : game_ok g2).
  { unfold update in E2. destruct (state g1);
      try (injection E2 as <-; exact H1).
    - injection E2 as <-.
      destruct H1 as (Hs & Hm & Hk & Hf). unfold update_opening_crawl.
      cbv zeta. break_ifs; unfold game_ok; cbn; auto.
    - exact (game_ok_update_game _ _ _ H1 E2).
    - injection E2 as <-.
      destruct H1 as (Hs & Hm & Hk & Hf). unfold update_cutscene.
      cbv zeta. break_ifs; unfold game_ok; cbn; auto. }
  unfold draw. destruct (state g2); exact H2.
Qed.

(** X16. In every game the main loop can reach, the score is never
    negative, the difficulty multiplier is at least 1 (so the division
    that computes the fire delay never divides by zero), the screen-shake
    countdown stays within 0..9 and the fire counter is never negative. *)
Theorem reachable_bounds a g :
  reachable a g ->
  0 <= score g /\
  (1 <= difficulty_multiplier (projectile_manager g))%Q /\
  0 <= screen_shake g <= 9 /\
  0 <= fire_counter (projectile_manager g).
Proof.
  induction 1 as [|g evs env g' _ IH Hf].
  - cbn. repeat split; try lia. discriminate.
  - exact (game_ok_frame _ _ _ _ IH Hf).
Qed.

Lemma reachable_bounds_witness :
  0 <= screen_shake last_life_game <= 9 /\
  (1 <= difficulty_multiplier (projectile_manager last_life_game))%Q.
Proof.
  generalize last_life_reachable. generalize last_life_game as g.
  intros g Hr.
  destruct (reachable_bounds demo_assets g Hr) as (_ & Hm & Hk & _).
  split; [exact Hk | exact Hm].
Defined.

End TickBounds.

Section DashCooldown.

Lemma player_updates_last_dash times : forall p,
  last_dash_time (player_updates p times) = last_dash_time p.
Proof.
  induction times as [|t rest IH]; intro p; cbn [player_updates fold_left].
  - reflexivity.
  - exact (IH (PlayerOps.update p t)).
Qed.

(** X17. After a dash that fired at clock [now], no dash fires at any
    clock reading up to [now + 1000], whatever keys are held, in whatever
    window, and however many [Player.update] calls lie in between: the
    attempt answers [False] and returns the player unchanged. *)
Theorem dash_respects_cooldown sc p keys now times sc' keys' now' :
  snd (PlayerOps.dash sc p keys now) = true ->
  now' - now <= Config.DASH_COOLDOWN ->
  let p1 := player_updates (fst (PlayerOps.dash sc p keys now)) times in
  last_dash_time p1 = now /\
  PlayerOps.dash sc' p1 keys' now' = (p1, false).
Proof.
  intros Hd Hcd p1.
  assert (El : last_dash_time p1 = now).
  { subst p1. rewrite player_updates_last_dash.
    unfold PlayerOps.dash in *.
    destruct ((now - last_dash_time p >? Config.DASH_COOLDOWN)
              && (K_SPACE keys || K_LSHIFT keys)); [reflexivity|].
    discriminate Hd. }
  split; [exact El|].
  unfold PlayerOps.dash. rewrite El.
  rewrite Z.gtb_ltb, (proj2 (Z.ltb_ge _ _) Hcd). reflexivity.
Qed.

Lemma dash_respects_cooldown_witness :
  snd (PlayerOps.dash demo_screen demo_player space_only 2000) = true /\
  snd (PlayerOps.dash demo_screen
         (player_updates (fst (PlayerOps.dash demo_screen demo_player
                                              space_only 2000))
                         [2016; 2032])
         space_only 3000) = false /\
  snd (PlayerOps.dash demo_screen
         (player_updates (fst (PlayerOps.dash demo_screen demo_player
                                              space_only 2000))
                         [2016; 2032])
         space_only 3001) = true.
Proof.
  split; [reflexivity|]. split; [|reflexivity].
  destruct (dash_respects_cooldown demo_screen demo_player space_only 2000
              [2016; 2032] demo_screen space_only 3000) as (_ & E).
  - reflexivity.
  - vm_compute. discriminate.
  - rewrite E. reflexivity.
Defined.

End DashCooldown.
